(** * Task-tracking service (src/index.js): model and properties

    A shallow embedding of the Express application of [src/index.js]:
    the identity middleware [auth], the express-validator chains, the
    handlers of /signup, /login and /tasks, the process-wide NodeCache
    and the two Mongoose collections.

    Conventions.
    - JavaScript strings are [string]s, one character per code unit.
    - [Date.now()] is an integer number of milliseconds.
    - ObjectIds are strings; the model takes identifiers as already
      cast (a request whose [:id] is not a well-formed ObjectId makes
      the query throw and is answered 500; such requests are outside
      the model).
    - Field values of a request body are JSON scalars: what the
      program does with a field that holds an array or an object is
      outside the model.
    - A task document is its paths [_id], [title], [complete],
      [userId], [createdAt] and [updatedAt]; Mongoose's version key
      [__v] is not modelled, and neither are update bodies that carry
      it or an update operator (a key that starts with $).
    - A Node process runs one handler at a time, up to the handler's
      next [await]; the handlers of several requests interleave at
      these points. The handlers are given twice: as functions from
      the state before to the response and the state after, which is a
      request that runs with no other request in between, and step by
      step ([astep]), where each [await] of a store call is a point at
      which other requests proceed.
    - A call to the store either works or throws; which one happens is
      an input of each handler ([db_error]).
    - The packages that the program calls (express-validator, Mongoose,
      node-cache, jsonwebtoken, bcrypt) are not part of it: their calls
      are modelled by what they are documented to do, or taken as
      given. *)

From stdpp Require Import gmap strings list pretty.
From Stdlib Require Import ZArith Lia Ascii Sorted.

Local Open Scope string_scope.
Local Open Scope list_scope.
Local Open Scope Z_scope.

(** ** JavaScript strings *)

Module JS.

(** [s.startsWith(p)] *)
Fixpoint startsWith (p s : string) : bool :=
  match p with
  | EmptyString => true
  | String a p' =>
      match s with
      | EmptyString => false
      | String b s' => if Ascii.eqb a b then startsWith p' s' else false
      end
  end.

Fixpoint drop (n : nat) (s : string) : string :=
  match n with
  | O => s
  | S n' => match s with EmptyString => EmptyString | String _ s' => drop n' s' end
  end.

(** [s.replace(pat, rep)] with a string pattern: the first occurrence
    only. *)
Fixpoint replace (pat rep s : string) : string :=
  if startsWith pat s then rep +:+ drop (String.length pat) s
  else match s with
       | EmptyString => EmptyString
       | String c s' => String c (replace pat rep s')
       end.

(** The white space of the regular expression class \s, among one-byte
    code units: TAB, LF, VT, FF, CR, space and NBSP. *)
Definition is_space (c : ascii) : bool :=
  let n := nat_of_ascii c in
  ((9 <=? n)%nat && (n <=? 13)%nat) || (n =? 32)%nat || (n =? 160)%nat.

Fixpoint ltrim (s : string) : string :=
  match s with
  | EmptyString => EmptyString
  | String c s' => if is_space c then ltrim s' else s
  end.

Fixpoint rtrim (s : string) : string :=
  match s with
  | EmptyString => EmptyString
  | String c s' =>
      match rtrim s' with
      | EmptyString => if is_space c then EmptyString else String c EmptyString
      | r => String c r
      end
  end.

(** validator.js [trim(str)] without a character set: [rtrim(ltrim(str))] *)
Definition trim (s : string) : string := rtrim (ltrim s).

(** The operand of [!x] / [x || y] for a string: empty is falsy. *)
Definition truthy (s : string) : bool := negb (String.eqb s "").

End JS.

(** ** JSON scalars and request bodies *)

(** A field value of a parsed JSON body. [JNum z] is the number whose
    [String()] form is the decimal numeral of [z]. *)
Inductive jsval : Type :=
  | JNull
  | JBool (b : bool)
  | JNum (z : Z)
  | JStr (s : string).

#[global] Instance jsval_eq_dec : EqDecision jsval.
Proof. solve_decision. Defined.

(** [req.body]: a JSON object; an absent key reads [undefined]. *)
Abbreviation body_t := (gmap string jsval).

(** express-validator's [toString(value)], on [undefined] ([None]) and
    on scalars. *)
Definition toString (v : option jsval) : string :=
  match v with
  | None => ""
  | Some JNull => ""
  | Some (JBool true) => "true"
  | Some (JBool false) => "false"
  | Some (JNum z) => pretty z
  | Some (JStr s) => s
  end.

(** ** express-validator chains

    A chain [body(field).a().b()...] is the field name with the list of
    its items. Validators look at [toString] of the current value and
    record an error when they fail; no validator stops the chain.
    Sanitizers replace the value, in the chain and in [req.body].
    [optional()] makes the whole chain a no-op when the field is
    [undefined]. *)

Inductive item : Type :=
  | isString
  | notEmpty
  | trim
  | isLength (min : nat) (max : option nat)
  | isBoolean
  | optional.

Record ValidationError := { path : string; msg : string }.

#[global] Instance ValidationError_eq_dec : EqDecision ValidationError.
Proof. solve_decision. Defined.

Definition invalid (field : string) : ValidationError :=
  {| path := field; msg := "Invalid value" |}.

(** validator.js [isBoolean(str)] with its default options, which is
    what [isBoolean()] runs on [toString(value)]: it is not the strict
    test [value === true || value === false]. *)
Definition validator_isBoolean (str : string) : bool :=
  bool_decide (str ∈ ["true"; "false"; "1"; "0"]).

(** One item on the current value: does it pass, and the value after it. *)
Definition run_item (it : item) (v : option jsval) : bool * option jsval :=
  match it with
  | isString => (match v with Some (JStr _) => true | _ => false end, v)
  | notEmpty => (negb (String.eqb (toString v) ""), v)
  | trim => (true, Some (JStr (JS.trim (toString v))))
  | isLength min max =>
      let n := String.length (toString v) in
      ((min <=? n)%nat && match max with Some m => (n <=? m)%nat | None => true end, v)
  | isBoolean => (validator_isBoolean (toString v), v)
  | optional => (true, v)
  end.

Fixpoint run_items (field : string) (items : list item) (v : option jsval)
  : list ValidationError * option jsval :=
  match items with
  | [] => ([], v)
  | it :: rest =>
      let '(ok, v1) := run_item it v in
      let '(errs, v2) := run_items field rest v1 in
      ((if ok then [] else [invalid field]) ++ errs, v2)
  end.

Definition is_optional (items : list item) : bool :=
  existsb (fun it => match it with optional => true | _ => false end) items.

Definition chain : Type := string * list item.

Definition run_chain (c : chain) (b : body_t) : list ValidationError * body_t :=
  let '(field, items) := c in
  match b !! field with
  | None =>
      if is_optional items then ([], b)
      else let '(errs, v) := run_items field items None in
           (errs, match v with Some x => <[field := x]> b | None => b end)
  | Some x0 =>
      let '(errs, v) := run_items field items (Some x0) in
      (errs, match v with Some x => <[field := x]> b | None => b end)
  end.

(** The chains of a route run in order, as middleware, before its
    handler; [validationResult(req)] is the list of all their errors and
    the handler sees the sanitized body. *)
Fixpoint validationResult (chains : list chain) (b : body_t)
  : list ValidationError * body_t :=
  match chains with
  | [] => ([], b)
  | c :: rest =>
      let '(e1, b1) := run_chain c b in
      let '(e2, b2) := validationResult rest b1 in
      (e1 ++ e2, b2)
  end.

Definition validateSignup : list chain :=
  [ ("username", [isString; notEmpty; trim; isLength 3 (Some 30%nat)]);
    ("password", [isString; notEmpty; isLength 6 None]) ].

Definition validateLogin : list chain :=
  [ ("username", [isString; notEmpty]);
    ("password", [isString; notEmpty]) ].

Definition validateTaskCreate : list chain :=
  [ ("title", [isString; notEmpty; trim; isLength 3 None]);
    ("complete", [optional; isBoolean]) ].

Definition validateTaskUpdate : list chain :=
  [ ("title", [optional; isString; notEmpty; trim; isLength 3 None]);
    ("complete", [optional; isBoolean]) ].

(** ** The collections *)

Abbreviation ObjectId := string (only parsing).

(** A document of the Task collection. [userId] is [None] when the
    stored value is null, which only an update can produce. *)
Record Task := {
  _id : ObjectId;
  title : string;
  complete : bool;
  userId : option ObjectId;
  createdAt : Z;
  updatedAt : Z
}.

#[global] Instance Task_eq_dec : EqDecision Task.
Proof. solve_decision. Defined.

Record User := {
  u_id : ObjectId;
  username : string;
  password : string;
  u_createdAt : Z
}.

#[global] Instance User_eq_dec : EqDecision User.
Proof. solve_decision. Defined.

(** Mongoose casts, on scalars. [None] is a CastError. The chains that
    run before the handlers leave only strings in [title] and only
    [true], [false], 1, 0 and their string forms in [complete]. *)
Definition castBoolean (v : jsval) : option bool :=
  match v with
  | JBool b => Some b
  | JNum 1 => Some true
  | JNum 0 => Some false
  | JStr s =>
      if bool_decide (s ∈ ["true"; "1"; "yes"]) then Some true
      else if bool_decide (s ∈ ["false"; "0"; "no"]) then Some false
      else None
  | _ => None
  end.

(** the schema's [title] is a String with [trim: true] *)
Definition castTitle (v : jsval) : option string :=
  match v with
  | JNull => None
  | _ => Some (JS.trim (toString (Some v)))
  end.

(** The strings that [new ObjectId(s)] takes: 24 hexadecimal digits
    (earlier versions of the bson package also took any string of 12
    bytes; the model does not). The ObjectId is written in lower case. *)
Definition is_hex (c : ascii) : bool :=
  let n := nat_of_ascii c in
  ((48 <=? n)%nat && (n <=? 57)%nat) || ((65 <=? n)%nat && (n <=? 70)%nat)
  || ((97 <=? n)%nat && (n <=? 102)%nat).

Fixpoint all_hex (s : string) : bool :=
  match s with
  | EmptyString => true
  | String c s' => is_hex c && all_hex s'
  end.

Definition isValidObjectId (s : string) : bool :=
  (String.length s =? 24)%nat && all_hex s.

Definition lower (c : ascii) : ascii :=
  let n := nat_of_ascii c in
  if (65 <=? n)%nat && (n <=? 90)%nat then ascii_of_nat (n + 32) else c.

Fixpoint toHexString (s : string) : string :=
  match s with
  | EmptyString => EmptyString
  | String c s' => String (lower c) (toHexString s')
  end.

(** the cast of a path of type ObjectId: [null] stays, a string must be
    a well-formed ObjectId, anything else is a CastError *)
Definition castObjectId (v : jsval) : option (option ObjectId) :=
  match v with
  | JNull => Some None
  | JStr s => if isValidObjectId s then Some (Some (toHexString s)) else None
  | _ => None
  end.

(** ** The cache *)

Module NodeCache.

(** Modelled from the spec: the NodeCache class of the node-cache
    package, of which src/ has only the calls (spec 4.3: [get] returns
    the value if present and unexpired, [set] stores or replaces the
    entry and restarts its time to live, [del] removes it; an entry is
    never served past its time to live). An entry records the time [t],
    in milliseconds, until which it is valid: [stdTTL] seconds after the
    [set]; [t = 0] stands for no expiry. It is stale once [t] lies in
    the past, and a [get] that meets a stale entry deletes it. *)
Record entry := { t : Z; v : list Task }.

Definition wrap (stdTTL : Z) (now : Z) (value : list Task) : entry :=
  {| t := if stdTTL =? 0 then 0 else now + stdTTL * 1000; v := value |}.

Definition stale (now : Z) (e : entry) : bool :=
  negb (t e =? 0) && (t e <? now).

Definition get (key : string) (now : Z) (data : gmap string entry)
  : option (list Task) * gmap string entry :=
  match data !! key with
  | Some e => if stale now e then (None, delete key data) else (Some (v e), data)
  | None => (None, data)
  end.

Definition set (stdTTL : Z) (key : string) (value : list Task) (now : Z)
  (data : gmap string entry) : gmap string entry :=
  <[key := wrap stdTTL now value]> data.

Definition del (key : string) (data : gmap string entry) : gmap string entry :=
  delete key data.

End NodeCache.

(** [new NodeCache({ stdTTL: 600 })] *)
Definition stdTTL : Z := 600.

(** ** Server state, requests and responses *)

Record state := {
  users : list User;
  tasks : list Task;
  cache : gmap string NodeCache.entry
}.

Definition init : state := {| users := []; tasks := []; cache := ∅ |}.

Definition set_cache (c : gmap string NodeCache.entry) (st : state) : state :=
  {| users := users st; tasks := tasks st; cache := c |}.

Definition set_tasks (l : list Task) (st : state) : state :=
  {| users := users st; tasks := l; cache := cache st |}.

Definition set_users (l : list User) (st : state) : state :=
  {| users := l; tasks := tasks st; cache := cache st |}.

(** What a request meets outside the program: the clock, the store
    ([Some m]: its calls throw an error of message [m]), the ObjectId
    that [new Model(...)] draws, and the salt that [bcrypt.hash] draws. *)
Record env := {
  now : Z;
  db_error : option string;
  new_id : ObjectId;
  salt : string
}.

(** The argument of [res.json(...)]. *)
Inductive resp_body : Type :=
  | BError (error : string)
  | BErrorMessage (error message : string)
  | BErrorDetails (error details : string)
  | BErrors (errors : list ValidationError)
  | BTasks (l : list Task)
  | BTask (task : Task)
  | BMessageTask (message : string) (task : Task)
  | BMessage (message : string)
  | BToken (token : string)
  | BSignup (message token : string) (id : ObjectId) (name : string) (created : Z).

Record response := { status : Z; json : resp_body }.

#[global] Instance resp_body_eq_dec : EqDecision resp_body.
Proof. solve_decision. Defined.

#[global] Instance response_eq_dec : EqDecision response.
Proof. solve_decision. Defined.

Definition respond (code : Z) (b : resp_body) : response :=
  {| status := code; json := b |}.

(** ** Store queries *)

(** the filter [{ _id: id, userId: uid }] *)
Definition owned_by (id uid : ObjectId) (x : Task) : bool :=
  bool_decide (_id x = id) && bool_decide (userId x = Some uid).

(** the filter [{ userId: uid }] *)
Definition of_user (uid : ObjectId) (x : Task) : bool :=
  bool_decide (userId x = Some uid).

(** [.sort({ createdAt: -1 })]: newest first. *)
Fixpoint insert_desc (x : Task) (l : list Task) : list Task :=
  match l with
  | [] => [x]
  | y :: l' => if createdAt y <=? createdAt x then x :: l else y :: insert_desc x l'
  end.

Definition sort_desc (l : list Task) : list Task := foldr insert_desc [] l.

(** [Task.find({ userId }).sort({ createdAt: -1 })] *)
Definition find_tasks (uid : ObjectId) (l : list Task) : list Task :=
  sort_desc (List.filter (of_user uid) l).

(** [Task.findOne({ _id, userId })] *)
Definition findOne (id uid : ObjectId) (l : list Task) : option Task :=
  List.find (owned_by id uid) l.

(** The update document of [findOneAndUpdate]: the top-level keys of
    [req.body] that name a path of the schema, each cast to the type of
    its path ([None]: a CastError, thrown before the store is asked). *)
Record update_doc := {
  set_title : option string;
  set_complete : option bool;
  set_userId : option (option ObjectId);
  set_id : option (option ObjectId)
}.

Definition cast_key {A} (cast : jsval → option A) (v : option jsval) : option (option A) :=
  match v with
  | None => Some None
  | Some x => Some <$> cast x
  end.

Definition cast_update (b : body_t) : option update_doc :=
  t ← cast_key castTitle (b !! "title");
  c ← cast_key castBoolean (b !! "complete");
  u ← cast_key castObjectId (b !! "userId");
  i ← cast_key castObjectId (b !! "_id");
  Some {| set_title := t; set_complete := c; set_userId := u; set_id := i |}.

(** The update on the matched document: the given paths are set and
    [updatedAt] is stamped; the store refuses ([None]) an [_id] other
    than the document's own. *)
Definition apply_update (d : update_doc) (now : Z) (x : Task) : option Task :=
  if bool_decide (set_id d = None ∨ set_id d = Some (Some (_id x))) then
    Some {| _id := _id x;
            title := default (title x) (set_title d);
            complete := default (complete x) (set_complete d);
            userId := default (userId x) (set_userId d);
            createdAt := createdAt x;
            updatedAt := now |}
  else None.

(** replace / remove the first document that matches *)
Fixpoint replace_first (p : Task → bool) (y : Task) (l : list Task) : list Task :=
  match l with
  | [] => []
  | x :: l' => if p x then y :: l' else x :: replace_first p y l'
  end.

Fixpoint remove_first (p : Task → bool) (l : list Task) : list Task :=
  match l with
  | [] => []
  | x :: l' => if p x then l' else x :: remove_first p l'
  end.

(** ** The task handlers, behind [auth]: [uid] is [req.user.id] *)

Definition cacheKey (uid : ObjectId) : string := "tasks_" +:+ uid.

Definition internal_error : response := respond 500 (BError "Internal server error").

(** GET /tasks *)
Definition listTasks (uid : ObjectId) (e : env) (st : state) : response * state :=
  let '(cached, c1) := NodeCache.get (cacheKey uid) (now e) (cache st) in
  match cached with
  | Some l => (respond 200 (BTasks l), set_cache c1 st)
  | None =>
      match db_error e with
      | Some _ => (internal_error, set_cache c1 st)
      | None =>
          let l := find_tasks uid (tasks st) in
          (respond 200 (BTasks l),
           set_cache (NodeCache.set stdTTL (cacheKey uid) l (now e) c1) st)
      end
  end.

(** POST /tasks *)
Definition createTask (uid : ObjectId) (b : body_t) (e : env) (st : state)
  : response * state :=
  let '(errors, b') := validationResult validateTaskCreate b in
  match errors with
  | _ :: _ => (respond 400 (BErrors errors), st)
  | [] =>
      let complete_v := default (JBool false) (b' !! "complete") in
      match b' !! "title" ≫= castTitle, castBoolean complete_v, db_error e with
      | Some title', Some complete', None =>
          if bool_decide (new_id e ∈ _id <$> tasks st) then (internal_error, st)
          else
            let task := {| _id := new_id e; title := title'; complete := complete';
                           userId := Some uid; createdAt := now e; updatedAt := now e |} in
            (respond 201 (BTask task),
             set_cache (NodeCache.del (cacheKey uid) (cache st))
               (set_tasks (tasks st ++ [task]) st))
      | _, _, _ => (internal_error, st)
      end
  end.

(** GET /tasks/:id *)
Definition getTask (uid id : ObjectId) (e : env) (st : state) : response * state :=
  match db_error e with
  | Some m => (respond 500 (BErrorDetails "Failed to fetch task" m), st)
  | None =>
      match findOne id uid (tasks st) with
      | None =>
          (respond 404 (BErrorMessage "Task not found"
                          "No task exists with the provided id for this user"), st)
      | Some task => (respond 200 (BMessageTask "Task retrieved successfully!" task), st)
      end
  end.

(** PUT /tasks/:id *)
Definition updateTask (uid id : ObjectId) (b : body_t) (e : env) (st : state)
  : response * state :=
  let '(errors, b') := validationResult validateTaskUpdate b in
  match errors with
  | _ :: _ => (respond 400 (BErrors errors), st)
  | [] =>
      match cast_update b', db_error e with
      | Some d, None =>
          match findOne id uid (tasks st) with
          | None => (respond 404 (BError "Task not found"), st)
          | Some x =>
              match apply_update d (now e) x with
              | None => (internal_error, st)
              | Some task =>
                  (respond 200 (BTask task),
                   set_cache (NodeCache.del (cacheKey uid) (cache st))
                     (set_tasks (replace_first (owned_by id uid) task (tasks st)) st))
              end
          end
      | _, _ => (internal_error, st)
      end
  end.

(** DELETE /tasks/:id *)
Definition deleteTask (uid id : ObjectId) (e : env) (st : state) : response * state :=
  match db_error e with
  | Some _ => (internal_error, st)
  | None =>
      match findOne id uid (tasks st) with
      | None => (respond 404 (BError "Task not found"), st)
      | Some _ =>
          (respond 200 (BMessage "Task deleted"),
           set_cache (NodeCache.del (cacheKey uid) (cache st))
             (set_tasks (remove_first (owned_by id uid) (tasks st)) st))
      end
  end.

(** ** Tokens *)

(** The claims of an identity token: [{ id, iat, exp }], times in whole
    seconds. *)
Record payload := { p_id : ObjectId; iat : Z; exp : Z }.

Inductive jwt_error : Type :=
  | JsonWebTokenError (message : string)
  | TokenExpiredError.

(** What [auth] passes on. *)
Inductive auth_result : Type :=
  | Rejected (r : response)
  | Next (user_id : ObjectId).

(** An instance of the serialisation and of the hash that the section
    below takes as given: the claims and the key written out in binary,
    and the password kept as it is. It protects nothing; it shows that
    what is assumed of them can be met, and lets the handlers run. *)
Module Plain.

Fixpoint bits (p : positive) : string :=
  match p with
  | xH => ""
  | xO q => String "0"%char (bits q)
  | xI q => String "1"%char (bits q)
  end.

Fixpoint unbits (s : string) : option positive :=
  match s with
  | EmptyString => Some xH
  | String c r =>
      if Ascii.eqb c "0"%char then xO <$> unbits r
      else if Ascii.eqb c "1"%char then xI <$> unbits r
      else None
  end.

Definition wire : Type := string * Z * Z * string.

Definition unwire (s : string) : option wire := unbits s ≫= decode.

Definition jws_sign (p : payload) (k : string) : string :=
  bits (encode ((p_id p, iat p, exp p, k) : wire)).

Definition jws_decode (s : string) : option payload :=
  (fun w : wire => {| p_id := w.1.1.1; iat := w.1.1.2; exp := w.1.2 |}) <$> unwire s.

Definition jws_verify (s k : string) : bool :=
  match unwire s with
  | Some w => String.eqb w.2 k
  | None => false
  end.

Definition bcrypt_hash (pw salt : string) : string := pw.

Definition bcrypt_compare (pw hash : string) : bool := String.eqb pw hash.

End Plain.

(** Sample data: two owners, a clock, a store at work. *)
Module Sample.

Definition alice : ObjectId := "65a000000000000000000001".
Definition bob : ObjectId := "65b000000000000000000002".

Definition e0 : env :=
  {| now := 1700000000000; db_error := None;
     new_id := "65c000000000000000000003"; salt := "salt" |}.

(** ten minutes later, to the millisecond *)
Definition e600 : env :=
  {| now := 1700000600000; db_error := None;
     new_id := "65c000000000000000000004"; salt := "salt" |}.

Definition milk : Task :=
  {| _id := "65c000000000000000000003"; title := "Buy milk"; complete := false;
     userId := Some alice; createdAt := 1700000000000; updatedAt := 1700000000000 |}.

(** the store holds one task, of alice; the cache is empty *)
Definition st1 : state := {| users := []; tasks := [milk]; cache := ∅ |}.

End Sample.

Section App.

(** The signed compact serialisation (package jws) and bcrypt are
    taken as given. *)
Variable jws_sign : payload → string → string.
Variable jws_decode : string → option payload.
Variable jws_verify : string → string → bool.
Variable bcrypt_hash : string → string → string.
Variable bcrypt_compare : string → string → bool.

(** [process.env.JWT_SECRET] *)
Variable env_JWT_SECRET : option string.

(** What is assumed of them: a token decodes to the claims it was made
    from and verifies under the key it was signed with; the empty
    password does not match the hash of a password that is not empty. *)
Hypothesis jws_decode_sign : ∀ p k, jws_decode (jws_sign p k) = Some p.
Hypothesis jws_verify_sign : ∀ p k, jws_verify (jws_sign p k) k = true.
Hypothesis bcrypt_empty :
  ∀ pw s, pw ≠ "" → bcrypt_compare "" (bcrypt_hash pw s) = false.

(** A password matches the hash made from it. *)
Hypothesis bcrypt_correct : ∀ pw s, bcrypt_compare pw (bcrypt_hash pw s) = true.

Definition JWT_SECRET : string :=
  match env_JWT_SECRET with
  | Some s => if JS.truthy s then s else "change-me-in-env"
  | None => "change-me-in-env"
  end.

(** Modelled from the spec: [jwt.sign] and [jwt.verify] of the
    jsonwebtoken package, of which src/ has only the calls (spec 4.1:
    [issue] produces a signed token embedding the subject id and an
    absolute expiry exactly 1 hour from issuance; [verify] fails if the
    signature does not match, the token is malformed, or the current
    time is at or past the embedded expiry, with no tolerance). The
    token's clock counts whole seconds: [Math.floor(Date.now() / 1000)]. *)
Definition jwt_sign (id : ObjectId) (secret : string) (now : Z) : string :=
  let iat := now / 1000 in
  jws_sign {| p_id := id; iat := iat; exp := iat + 3600 |} secret.

Definition jwt_verify (token secret : string) (now : Z) : payload + jwt_error :=
  match jws_decode token with
  | None => inr (JsonWebTokenError "invalid token")
  | Some decoded =>
      if negb (jws_verify token secret) then inr (JsonWebTokenError "invalid signature")
      else if exp decoded <=? now / 1000 then inr TokenExpiredError
      else inl decoded
  end.

(** *** The identity middleware *)

Definition missing_token : response :=
  respond 401 (BError "Access denied: missing token").

Definition invalid_token : response :=
  respond 401 (BError "Invalid or expired token").

(** [raw?.startsWith("Bearer ") ? raw.replace("Bearer ", "") : null] *)
Definition extract_token (raw : option string) : option string :=
  match raw with
  | Some r => if JS.startsWith "Bearer " r then Some (JS.replace "Bearer " "" r) else None
  | None => None
  end.

Definition auth (raw : option string) (now : Z) : auth_result :=
  match extract_token raw with
  | None => Rejected missing_token
  | Some token =>
      if negb (JS.truthy token) then Rejected missing_token
      else match jwt_verify token JWT_SECRET now with
           | inl decoded => Next (p_id decoded)
           | inr _ => Rejected invalid_token
           end
  end.

(** A route [app.METHOD(path, auth, ..., handler)]. *)
Definition protected (raw : option string)
  (handler : ObjectId → env → state → response * state) (e : env) (st : state)
  : response * state :=
  match auth raw (now e) with
  | Rejected r => (r, st)
  | Next uid => handler uid e st
  end.

(** *** Signup and login *)

(** [User.findOne({ username })]: Mongoose casts the filter by the
    schema, and the path [username] has [trim: true]: the name that is
    looked up is the given one without its surrounding white space. *)
Definition User_findOne (name : string) (l : list User) : option User :=
  List.find (fun u => bool_decide (username u = JS.trim name)) l.

(** POST /signup *)
Definition signup (b : body_t) (e : env) (st : state) : response * state :=
  let '(errors, b') := validationResult validateSignup b in
  match errors with
  | _ :: _ => (respond 400 (BErrors errors), st)
  | [] =>
      match b' !! "username", b' !! "password", db_error e with
      | Some (JStr name), Some (JStr pw), None =>
          match User_findOne name (users st) with
          | Some _ => (respond 400 (BError "Username already exists"), st)
          | None =>
              let hash := bcrypt_hash pw (salt e) in
              if bool_decide (new_id e ∈ u_id <$> users st) then
                (respond 500 (BError "Failed to create user"), st)
              else
                let user := {| u_id := new_id e; username := JS.trim name;
                               password := hash; u_createdAt := now e |} in
                let token := jwt_sign (u_id user) JWT_SECRET (now e) in
                (respond 201 (BSignup "User created successfully" token
                                (u_id user) (username user) (u_createdAt user)),
                 set_users (users st ++ [user]) st)
          end
      | _, _, _ => (respond 500 (BError "Failed to create user"), st)
      end
  end.

Definition invalid_credentials : response :=
  respond 401 (BError "Invalid credentials").

(** POST /login *)
Definition login (b : body_t) (e : env) (st : state) : response * state :=
  let '(errors, b') := validationResult validateLogin b in
  match errors with
  | _ :: _ => (respond 400 (BErrors errors), st)
  | [] =>
      match b' !! "username", b' !! "password", db_error e with
      | Some (JStr name), Some (JStr pw), None =>
          match User_findOne name (users st) with
          | None => (invalid_credentials, st)
          | Some user =>
              if bcrypt_compare pw (password user) then
                (respond 200 (BToken (jwt_sign (u_id user) JWT_SECRET (now e))), st)
              else (invalid_credentials, st)
          end
      | _, _, _ => (internal_error, st)
      end
  end.

(** *** The application *)

Inductive request : Type :=
  | POST_signup (b : body_t)
  | POST_login (b : body_t)
  | GET_tasks (authorization : option string)
  | POST_tasks (authorization : option string) (b : body_t)
  | GET_tasks_id (authorization : option string) (id : ObjectId)
  | PUT_tasks_id (authorization : option string) (id : ObjectId) (b : body_t)
  | DELETE_tasks_id (authorization : option string) (id : ObjectId).

Definition app (r : request) (e : env) (st : state) : response * state :=
  match r with
  | POST_signup b => signup b e st
  | POST_login b => login b e st
  | GET_tasks a => protected a listTasks e st
  | POST_tasks a b => protected a (fun uid => createTask uid b) e st
  | GET_tasks_id a id => protected a (fun uid => getTask uid id) e st
  | PUT_tasks_id a id b => protected a (fun uid => updateTask uid id b) e st
  | DELETE_tasks_id a id => protected a (fun uid => deleteTask uid id) e st
  end.

(** The states the server is in between requests that run one after
    the other, each to its answer before the next starts: from the
    empty store and cache, after any sequence of such requests. The
    states of the tasks and of the cache with requests that overlap are
    those of [areach] below. The collection of users changes by single
    calls of the store, which the store runs one after the other. *)
Inductive reachable : state → Prop :=
  | reachable_init : reachable init
  | reachable_step st r e : reachable st → reachable (snd (app r e st)).


(** ** Vocabulary of the properties *)

(** The operations of the task service, invoked as an owner. *)
Inductive task_op : Type :=
  | ListTasks
  | CreateTask (b : body_t)
  | GetTask (id : ObjectId)
  | UpdateTask (id : ObjectId) (b : body_t)
  | DeleteTask (id : ObjectId).

Definition run_op (uid : ObjectId) (op : task_op) : env → state → response * state :=
  match op with
  | ListTasks => listTasks uid
  | CreateTask b => createTask uid b
  | GetTask id => getTask uid id
  | UpdateTask id b => updateTask uid id b
  | DeleteTask id => deleteTask uid id
  end.

Definition is_write (op : task_op) : bool :=
  match op with
  | CreateTask _ | UpdateTask _ _ | DeleteTask _ => true
  | _ => false
  end.

(** The NotFound answers of GET /tasks/:id and of PUT and DELETE. *)
Definition not_found_get : response :=
  respond 404 (BErrorMessage "Task not found"
                 "No task exists with the provided id for this user").

Definition not_found : response := respond 404 (BError "Task not found").

(** The tasks that a response carries. *)
Definition resp_tasks (r : response) : list Task :=
  match json r with
  | BTasks l => l
  | BTask x => [x]
  | BMessageTask _ x => [x]
  | _ => []
  end.

Definition succeeded (r : response) : bool := (status r =? 200) || (status r =? 201).

(** The fields of an error response's detail. *)
Definition error_paths (r : response) : list string :=
  match json r with
  | BErrors errs => path <$> errs
  | _ => []
  end.

(** What the chains of POST /tasks accept. *)
Definition valid_title (v : option jsval) : bool :=
  match v with
  | Some (JStr s) => (3 <=? String.length (JS.trim s))%nat
  | _ => false
  end.

Definition boolean_like (x : jsval) : bool :=
  bool_decide (x ∈ [JBool true; JBool false; JNum 1; JNum 0;
                    JStr "true"; JStr "false"; JStr "1"; JStr "0"]).

Definition valid_complete (v : option jsval) : bool :=
  match v with
  | None => true
  | Some x => boolean_like x
  end.

(** The document that POST /tasks stores for a title [s] and a
    [complete] field [c]. *)
Definition new_task (uid : ObjectId) (s : string) (c : option jsval) (e : env) : Task :=
  {| _id := new_id e; title := JS.trim s;
     complete := default false (c ≫= castBoolean);
     userId := Some uid; createdAt := now e; updatedAt := now e |}.

(** Invariants of the store and of the cache. *)
Definition ids_unique (st : state) : Prop := NoDup (_id <$> tasks st).

Definition cache_owned (st : state) : Prop :=
  ∀ u ent x, cache st !! cacheKey u = Some ent → x ∈ NodeCache.v ent →
    ∃ y, y ∈ tasks st ∧ _id y = _id x ∧ userId y = Some u.

Definition tasks_inv (st : state) : Prop := ids_unique st ∧ cache_owned st.

Definition users_inv (st : state) : Prop :=
  NoDup (username <$> users st) ∧
  ∀ usr, usr ∈ users st →
    (3 ≤ String.length (username usr))%nat ∧
    ∃ pw s, password usr = bcrypt_hash pw s ∧ (6 ≤ String.length pw)%nat.

(** ** Vocabulary of the further properties *)

(** What the chains of POST /signup accept. *)
Definition valid_username (v : option jsval) : bool :=
  match v with
  | Some (JStr s) =>
      (3 <=? String.length (JS.trim s))%nat && (String.length (JS.trim s) <=? 30)%nat
  | _ => false
  end.

Definition valid_password (v : option jsval) : bool :=
  match v with
  | Some (JStr s) => (6 <=? String.length s)%nat
  | _ => false
  end.

(** The document that POST /signup stores for a name [s] and a
    password [p]. *)
Definition new_user (s p : string) (e : env) : User :=
  {| u_id := new_id e; username := JS.trim s;
     password := bcrypt_hash p (salt e); u_createdAt := now e |}.

(** What the chains of PUT /tasks/:id accept: a field that is absent,
    or one that POST /tasks would accept. *)
Definition valid_title_update (v : option jsval) : bool :=
  match v with
  | None => true
  | _ => valid_title v
  end.

(** A key that Mongoose reads as an update operator, not as a path. *)
Definition is_operator (k : string) : bool := JS.startsWith "$" k.

(** A task whose [updatedAt] alone is renewed. *)
Definition touch (now : Z) (x : Task) : Task :=
  {| _id := _id x; title := title x; complete := complete x; userId := userId x;
     createdAt := createdAt x; updatedAt := now |}.

(** The order of [.sort({ createdAt: -1 })]. *)
Definition newer_first (x y : Task) : Prop := createdAt y ≤ createdAt x.

(** The fields that a list of chains validates. *)
Definition fields (chains : list chain) : list string := fst <$> chains.

(** ** The handlers between their awaits

    A handler of /tasks runs up to its [await] of a store call, is
    suspended while the store runs the call, and resumes with the
    result. The process runs one such piece at a time, those of
    different requests in any order: between the [cache.get] of GET
    /tasks and its [cache.set], and between the write of POST, PUT and
    DELETE and their [cache.del], other requests proceed. *)

(** A request suspended at its [await]: with its call still to run, and
    with the result of the call ([None], [inl]: the call threw). *)
Inductive pending : Type :=
  | PFind (uid : ObjectId)
  | PFound (uid : ObjectId) (r : option (list Task))
  | PSave (uid : ObjectId) (task : Task)
  | PSaved (uid : ObjectId) (r : option Task)
  | PFindOne (uid id : ObjectId)
  | PFoundOne (uid : ObjectId) (r : string + option Task)
  | PUpdate (uid id : ObjectId) (d : update_doc) (now : Z)
  | PUpdated (uid : ObjectId) (r : option (option Task))
  | PDelete (uid id : ObjectId)
  | PDeleted (uid : ObjectId) (r : option (option Task)).

(** The process: the collections and the cache, and the requests that
    are suspended. *)
Record server := { current : state; inflight : list pending }.

Definition boot : server := {| current := init; inflight := [] |}.

Definition with_state (st : state) (σ : server) : server :=
  {| current := st; inflight := inflight σ |}.

Definition suspend (p : pending) (σ : server) : server :=
  {| current := current σ; inflight := inflight σ ++ [p] |}.

(** A handler from its start to its [await], or to its answer when it
    gives one before: GET /tasks on a cache hit, POST and PUT on a
    body that the chains or the casts reject. *)
Definition begin (uid : ObjectId) (op : task_op) (e : env) (σ : server)
  : server * option response :=
  match op with
  | ListTasks =>
      let '(cached, c1) := NodeCache.get (cacheKey uid) (now e) (cache (current σ)) in
      let σ1 := with_state (set_cache c1 (current σ)) σ in
      match cached with
      | Some l => (σ1, Some (respond 200 (BTasks l)))
      | None => (suspend (PFind uid) σ1, None)
      end
  | CreateTask b =>
      let '(errors, b') := validationResult validateTaskCreate b in
      match errors with
      | _ :: _ => (σ, Some (respond 400 (BErrors errors)))
      | [] =>
          let complete_v := default (JBool false) (b' !! "complete") in
          match b' !! "title" ≫= castTitle, castBoolean complete_v with
          | Some title', Some complete' =>
              let task := {| _id := new_id e; title := title'; complete := complete';
                             userId := Some uid; createdAt := now e; updatedAt := now e |} in
              (suspend (PSave uid task) σ, None)
          | _, _ => (σ, Some internal_error)
          end
      end
  | GetTask id => (suspend (PFindOne uid id) σ, None)
  | UpdateTask id b =>
      let '(errors, b') := validationResult validateTaskUpdate b in
      match errors with
      | _ :: _ => (σ, Some (respond 400 (BErrors errors)))
      | [] =>
          match cast_update b' with
          | Some d => (suspend (PUpdate uid id d (now e)) σ, None)
          | None => (σ, Some internal_error)
          end
      end
  | DeleteTask id => (suspend (PDelete uid id) σ, None)
  end.

Definition settle (i : nat) (p : pending) (st : state) (σ : server) : server :=
  {| current := st; inflight := <[i := p]> (inflight σ) |}.

(** The store runs the call of the [i]-th suspended request, in one
    piece; [err]: the call throws. *)
Definition exec (i : nat) (err : option string) (σ : server) : server :=
  let st := current σ in
  match inflight σ !! i with
  | Some (PFind uid) =>
      settle i (PFound uid (match err with
                            | Some _ => None
                            | None => Some (find_tasks uid (tasks st))
                            end)) st σ
  | Some (PSave uid task) =>
      match err with
      | Some _ => settle i (PSaved uid None) st σ
      | None =>
          if bool_decide (_id task ∈ _id <$> tasks st) then settle i (PSaved uid None) st σ
          else settle i (PSaved uid (Some task)) (set_tasks (tasks st ++ [task]) st) σ
      end
  | Some (PFindOne uid id) =>
      settle i (PFoundOne uid (match err with
                               | Some m => inl m
                               | None => inr (findOne id uid (tasks st))
                               end)) st σ
  | Some (PUpdate uid id d now) =>
      match err with
      | Some _ => settle i (PUpdated uid None) st σ
      | None =>
          match findOne id uid (tasks st) with
          | None => settle i (PUpdated uid (Some None)) st σ
          | Some x =>
              match apply_update d now x with
              | None => settle i (PUpdated uid None) st σ
              | Some task =>
                  settle i (PUpdated uid (Some (Some task)))
                    (set_tasks (replace_first (owned_by id uid) task (tasks st)) st) σ
              end
          end
      end
  | Some (PDelete uid id) =>
      match err with
      | Some _ => settle i (PDeleted uid None) st σ
      | None =>
          match findOne id uid (tasks st) with
          | None => settle i (PDeleted uid (Some None)) st σ
          | Some x =>
              settle i (PDeleted uid (Some (Some x)))
                (set_tasks (remove_first (owned_by id uid) (tasks st)) st) σ
          end
      end
  | _ => σ
  end.

Definition finish (i : nat) (st : state) (σ : server) : server :=
  {| current := st; inflight := delete i (inflight σ) |}.

(** The [i]-th suspended request resumes with the result of its call,
    at the time [now]: the rest of the handler, to its answer. *)
Definition resume (i : nat) (now : Z) (σ : server)
  : server * option (ObjectId * response) :=
  let st := current σ in
  let dropped uid := set_cache (NodeCache.del (cacheKey uid) (cache st)) st in
  match inflight σ !! i with
  | Some (PFound uid (Some l)) =>
      (finish i (set_cache (NodeCache.set stdTTL (cacheKey uid) l now (cache st)) st) σ,
       Some (uid, respond 200 (BTasks l)))
  | Some (PFound uid None) => (finish i st σ, Some (uid, internal_error))
  | Some (PSaved uid (Some task)) =>
      (finish i (dropped uid) σ, Some (uid, respond 201 (BTask task)))
  | Some (PSaved uid None) => (finish i st σ, Some (uid, internal_error))
  | Some (PFoundOne uid (inl m)) =>
      (finish i st σ, Some (uid, respond 500 (BErrorDetails "Failed to fetch task" m)))
  | Some (PFoundOne uid (inr None)) => (finish i st σ, Some (uid, not_found_get))
  | Some (PFoundOne uid (inr (Some task))) =>
      (finish i st σ,
       Some (uid, respond 200 (BMessageTask "Task retrieved successfully!" task)))
  | Some (PUpdated uid (Some (Some task))) =>
      (finish i (dropped uid) σ, Some (uid, respond 200 (BTask task)))
  | Some (PUpdated uid (Some None)) => (finish i st σ, Some (uid, not_found))
  | Some (PUpdated uid None) => (finish i st σ, Some (uid, internal_error))
  | Some (PDeleted uid (Some (Some _))) =>
      (finish i (dropped uid) σ, Some (uid, respond 200 (BMessage "Task deleted")))
  | Some (PDeleted uid (Some None)) => (finish i st σ, Some (uid, not_found))
  | Some (PDeleted uid None) => (finish i st σ, Some (uid, internal_error))
  | _ => (σ, None)
  end.

(** What happens in the process, one piece at a time. [Signup] stands
    for a POST /signup that stores a user: the handlers of /tasks do not
    read the users. *)
Inductive event : Type :=
  | Begin (uid : ObjectId) (op : task_op) (e : env)
  | Exec (i : nat) (err : option string)
  | Resume (i : nat) (now : Z)
  | Signup (user : User).

(** A step of the process, with the answer that it sends, if any, and
    the user that it is sent to. *)
Definition astep (ev : event) (σ : server) : server * option (ObjectId * response) :=
  match ev with
  | Begin uid op e =>
      let '(σ1, r) := begin uid op e σ in (σ1, (fun x => (uid, x)) <$> r)
  | Exec i err => (exec i err σ, None)
  | Resume i now => resume i now σ
  | Signup user =>
      (with_state (set_users (users (current σ) ++ [user]) (current σ)) σ, None)
  end.

Fixpoint arun (evs : list event) (σ : server) : server * list (ObjectId * response) :=
  match evs with
  | [] => (σ, [])
  | ev :: rest =>
      let '(σ1, r) := astep ev σ in
      let '(σ2, rs) := arun rest σ1 in
      (σ2, option_list r ++ rs)
  end.

(** The states of the process: from the start, after any steps. *)
Inductive areach : server → Prop :=
  | areach_boot : areach boot
  | areach_step σ ev : areach σ → areach (astep ev σ).1.










(** Every list that is cached for a user, or held by a suspended list
    request of a user, holds documents of that user only. *)
Definition lists_tagged (σ : server) : Prop :=
  (∀ u ent x, cache (current σ) !! cacheKey u = Some ent → x ∈ NodeCache.v ent →
     userId x = Some u) ∧
  (∀ u l x, PFound u (Some l) ∈ inflight σ → x ∈ l → userId x = Some u).

(** The first segment of a key, up to its first dot, and the keys that
    name a path of the task schema or a part of one. *)
Fixpoint head_segment (k : string) : string :=
  match k with
  | EmptyString => EmptyString
  | String c k' => if Ascii.eqb c "."%char then EmptyString else String c (head_segment k')
  end.

Definition schema_paths : list string :=
  ["_id"; "title"; "complete"; "userId"; "createdAt"; "updatedAt"; "__v"].

Definition names_path (k : string) : bool :=
  bool_decide (head_segment k ∈ schema_paths).

(** ** Strings *)

Lemma rtrim_idem s : JS.rtrim (JS.rtrim s) = JS.rtrim s.
Proof.
  induction s as [|c s IH]; [done|].
  simpl. destruct (JS.rtrim s) as [|d r] eqn:E.
  - destruct (JS.is_space c) eqn:Hc; simpl; [done|]. by rewrite Hc.
  - change (JS.rtrim (String c (String d r)))
      with (match JS.rtrim (String d r) with
            | EmptyString => if JS.is_space c then EmptyString else String c EmptyString
            | r' => String c r'
            end).
    by rewrite IH.
Qed.

Lemma ltrim_cases s :
  JS.ltrim s = "" ∨ ∃ c r, JS.ltrim s = String c r ∧ JS.is_space c = false.
Proof.
  induction s as [|c s IH]; [by left|].
  simpl. destruct (JS.is_space c) eqn:Hc; [done|]. right. eauto.
Qed.

Lemma rtrim_keeps_head c r :
  JS.is_space c = false → ∃ r', JS.rtrim (String c r) = String c r'.
Proof.
  intros Hc. simpl. destruct (JS.rtrim r); [rewrite Hc|]; eauto.
Qed.

Lemma trim_idem s : JS.trim (JS.trim s) = JS.trim s.
Proof.
  unfold JS.trim. destruct (ltrim_cases s) as [->|(c & r & -> & Hc)]; [done|].
  destruct (rtrim_keeps_head c r Hc) as [r' E].
  rewrite E. cbn [JS.ltrim]. rewrite Hc, <- E. apply rtrim_idem.
Qed.

Lemma startsWith_app p s : JS.startsWith p (p +:+ s) = true.
Proof. induction p as [|a p IH]; [done|]. simpl. by rewrite Ascii.eqb_refl. Qed.

Lemma drop_app p s : JS.drop (String.length p) (p +:+ s) = s.
Proof. induction p; simpl; auto. Qed.

Lemma replace_unfold pat rep s :
  JS.replace pat rep s =
  if JS.startsWith pat s then rep +:+ JS.drop (String.length pat) s
  else match s with
       | EmptyString => EmptyString
       | String c s' => String c (JS.replace pat rep s')
       end.
Proof. by destruct s. Qed.

(** With the prefix in front, [replace] removes just the prefix. *)
Lemma replace_prefix p s : JS.replace p "" (p +:+ s) = s.
Proof. by rewrite replace_unfold, startsWith_app, drop_app. Qed.

Lemma truthy_spec s : JS.truthy s = true ↔ s ≠ "".
Proof.
  unfold JS.truthy. destruct (String.eqb_spec s ""); split; simpl; congruence.
Qed.

Lemma cacheKey_inj u u' : cacheKey u = cacheKey u' → u = u'.
Proof. unfold cacheKey. intros H. by simplify_eq/=. Qed.

(** ** Numerals *)

Lemma append_cons a p s : String a p +:+ s = String a (p +:+ s).
Proof. done. Qed.

Lemma append_snoc q c s : (q +:+ String c "") +:+ s = q +:+ String c s.
Proof. induction q as [|a q IH]; [done|]. by rewrite !append_cons, IH. Qed.

Lemma pretty_N_go_suffix x s : ∃ p, pretty_N_go x s = p +:+ s.
Proof.
  revert s. induction (N.lt_wf_0 x) as [x _ IH]; intros s.
  assert (x = 0 ∨ 0 < x)%N as [->|Hx] by lia.
  - exists "". by rewrite pretty_N_go_0.
  - rewrite pretty_N_go_step by done.
    destruct (IH (x `div` 10)%N (N.div_lt x 10 Hx eq_refl)
                (String (pretty_N_char (x `mod` 10)) s)) as [q ->].
    exists (q +:+ String (pretty_N_char (x `mod` 10)) "").
    by rewrite append_snoc.
Qed.

(** The numeral of a positive number ends in a digit. *)
Lemma pretty_pos_last (x : positive) :
  ∃ p n, pretty x = p +:+ String (pretty_N_char n) "".
Proof.
  unfold pretty, pretty_positive, pretty, pretty_N.
  case_decide; [done|].
  rewrite pretty_N_go_step by lia.
  destruct (pretty_N_go_suffix (N.pos x `div` 10)%N
              (String (pretty_N_char (N.pos x `mod` 10)) "")) as [q ->].
  eauto.
Qed.

Lemma digit_last_ne p n w c :
  (∀ m, pretty_N_char m ≠ c) → p +:+ String (pretty_N_char n) "" ≠ w +:+ String c "".
Proof.
  intros Hc. revert w. induction p as [|a p IH]; intros [|b w] H; simplify_eq/=.
  - by eapply Hc.
  - by destruct w.
  - by destruct p.
  - by eapply IH.
Qed.

Lemma pretty_Z_not_word (z : Z) w :
  pretty z ≠ w +:+ "e".
Proof.
  assert (∀ m, pretty_N_char m ≠ "e"%char) as Hd.
  { intros m. unfold pretty_N_char. by repeat case_match. }
  destruct z as [|x|x]; unfold pretty, pretty_Z.
  - intros H. destruct w as [|? [|? ?]]; simplify_eq/=.
  - destruct (pretty_pos_last x) as (p & n & ->). by apply digit_last_ne.
  - destruct (pretty_pos_last x) as (p & n & ->).
    change ("-" +:+ (p +:+ String (pretty_N_char n) ""))
      with (String "-" p +:+ String (pretty_N_char n) "").
    by apply digit_last_ne.
Qed.

(** [isBoolean()] accepts the two booleans, the numbers 1 and 0, and
    the strings that spell them. *)
Lemma isBoolean_boolean_like x :
  validator_isBoolean (toString (Some x)) = boolean_like x.
Proof.
  destruct x as [|[]|z|s]; try done.
  - (* a number *)
    unfold validator_isBoolean, boolean_like, toString.
    destruct (decide (z = 1)) as [->|]; [done|].
    destruct (decide (z = 0)) as [->|]; [done|].
    rewrite !bool_decide_eq_false_2; [done|..].
    + rewrite !elem_of_cons, elem_of_nil. intuition congruence.
    + rewrite !elem_of_cons, elem_of_nil.
      intros [H|[H|[H|[H|[]]]]].
      * by apply (pretty_Z_not_word z "tru").
      * by apply (pretty_Z_not_word z "fals").
      * change "1" with (pretty 1) in H. by apply (inj pretty) in H.
      * change "0" with (pretty 0) in H. by apply (inj pretty) in H.
  - (* a string *)
    unfold validator_isBoolean, boolean_like, toString.
    apply bool_decide_ext. rewrite !elem_of_cons, !elem_of_nil.
    intuition congruence.
Qed.

(** ** Store queries *)

Lemma insert_desc_perm x l : insert_desc x l ≡ₚ x :: l.
Proof.
  induction l as [|y l IH]; [done|].
  simpl. case_match; [done|]. rewrite IH. apply Permutation_swap.
Qed.

Lemma sort_desc_perm l : sort_desc l ≡ₚ l.
Proof.
  induction l as [|x l IH]; [done|].
  unfold sort_desc in *. simpl. by rewrite insert_desc_perm, IH.
Qed.

Lemma elem_of_find_tasks x uid l :
  x ∈ find_tasks uid l ↔ x ∈ l ∧ userId x = Some uid.
Proof.
  unfold find_tasks. rewrite sort_desc_perm, list_elem_of_In, List.filter_In,
    <- list_elem_of_In.
  unfold of_user. by rewrite bool_decide_eq_true.
Qed.

Lemma owned_by_true id uid x :
  owned_by id uid x = true ↔ _id x = id ∧ userId x = Some uid.
Proof. unfold owned_by. by rewrite andb_true_iff, !bool_decide_eq_true. Qed.

Lemma findOne_Some id uid l x :
  findOne id uid l = Some x → x ∈ l ∧ _id x = id ∧ userId x = Some uid.
Proof.
  intros H. apply List.find_some in H as [Hin Hp].
  by rewrite list_elem_of_In, <- owned_by_true.
Qed.



Lemma replace_first_keeps p y l x :
  x ∈ l → p x = false → x ∈ replace_first p y l.
Proof.
  induction l as [|z l IH]; simpl; [done|].
  rewrite elem_of_cons. intros [->|Hx] Hp.
  - rewrite Hp. by left.
  - case_match; rewrite elem_of_cons; auto.
Qed.

Lemma replace_first_ids p y l :
  (∀ x, x ∈ l → p x = true → _id x = _id y) →
  _id <$> replace_first p y l = _id <$> l.
Proof.
  induction l as [|z l IH]; simpl; [done|]. intros H.
  destruct (p z) eqn:Hz.
  - rewrite !fmap_cons. f_equal. symmetry. apply H; [by left|done].
  - rewrite !fmap_cons. f_equal. apply IH. intros x Hx. apply H. by right.
Qed.

Lemma replace_first_has p y l x :
  List.find p l = Some x → y ∈ replace_first p y l.
Proof.
  induction l as [|z l IH]; simpl; [done|].
  destruct (p z); intros; [by left|right; auto].
Qed.

Lemma remove_first_sublist p l : remove_first p l `sublist_of` l.
Proof.
  induction l as [|z l IH]; simpl; [done|].
  case_match; [by apply sublist_cons|by apply sublist_skip].
Qed.

Lemma remove_first_keeps p l x :
  x ∈ l → p x = false → x ∈ remove_first p l.
Proof.
  induction l as [|z l IH]; simpl; [done|].
  rewrite elem_of_cons. intros [->|Hx] Hp.
  - rewrite Hp. by left.
  - case_match; [done|]. rewrite elem_of_cons; auto.
Qed.

Lemma remove_first_ids p l : NoDup (_id <$> l) → NoDup (_id <$> remove_first p l).
Proof.
  intros H. eapply sublist_NoDup; [done|]. apply fmap_sublist, remove_first_sublist.
Qed.

(** ** The cache *)

Lemma get_Some key now data l c :
  NodeCache.get key now data = (Some l, c) →
  c = data ∧ ∃ ent, data !! key = Some ent ∧ NodeCache.v ent = l
                   ∧ NodeCache.stale now ent = false.
Proof.
  unfold NodeCache.get. destruct (data !! key) as [ent|]; [|done].
  destruct (NodeCache.stale now ent) eqn:E; [done|].
  intros [= <- <-]. eauto.
Qed.

Lemma get_None key now data c :
  NodeCache.get key now data = (None, c) → c = delete key data.
Proof.
  unfold NodeCache.get. destruct (data !! key) as [ent|] eqn:E.
  - case_match; [|done]. by intros [= <-].
  - intros [= <-]. symmetry. by apply delete_id.
Qed.

(** ** Validation chains *)

Lemma run_items_cons field it rest v :
  run_items field (it :: rest) v =
  ((if (run_item it v).1 then [] else [invalid field])
     ++ (run_items field rest (run_item it v).2).1,
   (run_items field rest (run_item it v).2).2).
Proof.
  simpl. destruct (run_item it v) as [ok v1]. simpl.
  by destruct (run_items field rest v1).
Qed.

Lemma run_items_paths field items v :
  Forall (λ e, path e = field) (run_items field items v).1.
Proof.
  revert v. induction items as [|it rest IH]; intros v; [by constructor|].
  rewrite run_items_cons. simpl. apply Forall_app. split; [|apply IH].
  case_match; by repeat constructor.
Qed.

(** No item erases a value. *)
Lemma run_items_is_Some field items v :
  is_Some v → is_Some (run_items field items v).2.
Proof.
  revert v. induction items as [|it rest IH]; intros v Hv; [done|].
  rewrite run_items_cons. simpl. apply IH. by destruct it.
Qed.

Lemma run_chain_errors field items b :
  (run_chain (field, items) b).1 =
  if is_optional items && bool_decide (b !! field = None) then []
  else (run_items field items (b !! field)).1.
Proof.
  unfold run_chain. destruct (b !! field) as [x|] eqn:E.
  - rewrite andb_false_r. by destruct (run_items field items (Some x)).
  - rewrite andb_true_r. destruct (is_optional items); [done|].
    by destruct (run_items field items None).
Qed.

Lemma run_chain_lookup_ne field items b k :
  k ≠ field → (run_chain (field, items) b).2 !! k = b !! k.
Proof.
  intros Hk. unfold run_chain.
  destruct (b !! field) as [x|]; [|destruct (is_optional items); [done|]].
  - destruct (run_items field items (Some x)) as [e [y|]]; simpl; [|done].
    by rewrite lookup_insert_ne.
  - destruct (run_items field items None) as [e [y|]]; simpl; [|done].
    by rewrite lookup_insert_ne.
Qed.

Lemma run_chain_lookup_eq field items b :
  (run_chain (field, items) b).2 !! field =
  if is_optional items && bool_decide (b !! field = None) then None
  else (run_items field items (b !! field)).2.
Proof.
  unfold run_chain. destruct (b !! field) as [x|] eqn:E.
  - rewrite andb_false_r.
    pose proof (run_items_is_Some field items (Some x) (mk_is_Some _ _ eq_refl)) as [y Hy].
    destruct (run_items field items (Some x)) as [e v2]. simpl in *. subst v2.
    by rewrite lookup_insert_eq.
  - rewrite andb_true_r. destruct (is_optional items); [done|].
    destruct (run_items field items None) as [e [y|]]; simpl; [|done].
    by rewrite lookup_insert_eq.
Qed.

Lemma validationResult_two c1 c2 b :
  validationResult [c1; c2] b =
  ((run_chain c1 b).1 ++ (run_chain c2 (run_chain c1 b).2).1,
   (run_chain c2 (run_chain c1 b).2).2).
Proof.
  simpl. destruct (run_chain c1 b) as [e1 b1]. simpl.
  destruct (run_chain c2 b1) as [e2 b2]. simpl. by rewrite app_nil_r.
Qed.

(** The title items, on any value: no error exactly on a string of at
    least 3 characters once trimmed, which they leave trimmed. *)
Lemma title_items v :
  let r := run_items "title" [isString; notEmpty; trim; isLength 3 None] v in
  (r.1 = [] ↔ valid_title v = true) ∧
  (∀ s, v = Some (JStr s) → r.2 = Some (JStr (JS.trim s))).
Proof.
  destruct v as [[|b|z|s]|]; simpl;
    (split; [|intros ? [= <-] || (intros ? ?); done]); try by split.
  destruct s as [|c s]; [by split|].
  change (negb (String.eqb (String c s) "")) with true. cbn [app].
  destruct (String.length (JS.trim (String c s))) as [|[|[|n]]]; by split.
Qed.

Lemma complete_items v :
  (run_items "complete" [optional; isBoolean] (Some v)).1 = [] ↔ boolean_like v = true.
Proof.
  change ((run_items "complete" [optional; isBoolean] (Some v)).1)
    with ((if validator_isBoolean (toString (Some v)) then []
           else [invalid "complete"]) ++ []).
  rewrite isBoolean_boolean_like.
  destruct (boolean_like v); split; done.
Qed.

Lemma paths_of_field (errs : list ValidationError) field k :
  Forall (λ e, path e = field) errs →
  k ∈ path <$> errs ↔ k = field ∧ errs ≠ [].
Proof.
  intros H. split.
  - intros (e & -> & He)%list_elem_of_fmap.
    rewrite Forall_forall in H. split; [by apply H|].
    intros ->. by apply elem_of_nil in He.
  - intros [-> Hne]. destruct errs as [|e errs]; [done|].
    apply Forall_cons in H as [<- _]. rewrite fmap_cons. by left.
Qed.

(** What [validationResult] finds on POST /tasks. *)
Lemma validateTaskCreate_spec b :
  let r := validationResult validateTaskCreate b in
  (r.1 = [] ↔ valid_title (b !! "title") = true ∧ valid_complete (b !! "complete") = true) ∧
  (∀ k, k ∈ path <$> r.1 ↔
        (k = "title" ∧ valid_title (b !! "title") = false) ∨
        (k = "complete" ∧ valid_complete (b !! "complete") = false)) ∧
  (∀ s, b !! "title" = Some (JStr s) → r.2 !! "title" = Some (JStr (JS.trim s))) ∧
  r.2 !! "complete" = b !! "complete".
Proof.
  unfold validateTaskCreate. rewrite validationResult_two. cbn [fst snd].
  set (c1 := ("title", [isString; notEmpty; trim; isLength 3 None])).
  set (b1 := (run_chain c1 b).2).
  assert (b1 !! "complete" = b !! "complete") as Hc
    by (by apply run_chain_lookup_ne).
  pose proof (title_items (b !! "title")) as [Ht1 Ht2]. cbn zeta in Ht1, Ht2.
  assert ((run_chain c1 b).1 = [] ↔ valid_title (b !! "title") = true) as He1.
  { unfold c1. by rewrite run_chain_errors. }
  assert (Forall (λ e, path e = "title") (run_chain c1 b).1) as Hp1.
  { unfold c1. rewrite run_chain_errors. apply run_items_paths. }
  set (c2 := ("complete", [optional; isBoolean])).
  assert ((run_chain c2 b1).1 = [] ↔ valid_complete (b !! "complete") = true) as He2.
  { unfold c2. rewrite run_chain_errors, Hc.
    destruct (b !! "complete") as [v|]; [|done]. apply complete_items. }
  assert (Forall (λ e, path e = "complete") (run_chain c2 b1).1) as Hp2.
  { unfold c2. rewrite run_chain_errors. case_match; [constructor|apply run_items_paths]. }
  split; [|split; [|split]].
  - rewrite <- He1, <- He2. split.
    + by intros [-> ->]%app_eq_nil.
    + by intros [-> ->].
  - intros k. rewrite fmap_app, elem_of_app.
    rewrite (paths_of_field _ _ _ Hp1), (paths_of_field _ _ _ Hp2).
    rewrite <- !not_true_iff_false, <- He1, <- He2. done.
  - intros s Hs. unfold c2. rewrite run_chain_lookup_ne by done.
    unfold b1, c1. rewrite run_chain_lookup_eq. simpl. by apply Ht2.
  - unfold c2. rewrite run_chain_lookup_eq, Hc. cbn [is_optional existsb orb andb].
    destruct (b !! "complete") as [v|] eqn:E; [|done].
    by rewrite bool_decide_eq_false_2.
Qed.

Lemma boolean_like_cast v : boolean_like v = true → is_Some (castBoolean v).
Proof.
  unfold boolean_like. rewrite bool_decide_eq_true, !elem_of_cons, elem_of_nil.
  intros H. repeat destruct H as [->|H]; by eauto.
Qed.

(** ** POST /tasks *)

(** C7, amended. A create request whose [title] and [complete], when
    present, are JSON scalars is answered 400 exactly when its title is
    not a string of at least 3 characters once trimmed, or its
    [complete] is present and is none of true, false, 1, 0 and the
    strings that spell them; the detail then names exactly the fields
    at fault and nothing is stored. Any other such request, when the
    store takes the write, is answered 201 with a new task owned by the
    caller, which is appended to the collection. (A body is a map from
    keys to scalars here: a field that holds an array or an object is
    not covered.) *)
Theorem createTask_validation uid b e st :
  (valid_title (b !! "title") && valid_complete (b !! "complete") = false →
     status (createTask uid b e st).1 = 400 ∧
     (createTask uid b e st).2 = st ∧
     ∀ k, k ∈ error_paths (createTask uid b e st).1 ↔
          (k = "title" ∧ valid_title (b !! "title") = false) ∨
          (k = "complete" ∧ valid_complete (b !! "complete") = false))
  ∧
  (valid_title (b !! "title") && valid_complete (b !! "complete") = true →
     db_error e = None → new_id e ∉ _id <$> tasks st →
     ∃ s, b !! "title" = Some (JStr s) ∧
          createTask uid b e st =
            (respond 201 (BTask (new_task uid s (b !! "complete") e)),
             set_cache (NodeCache.del (cacheKey uid) (cache st))
               (set_tasks (tasks st ++ [new_task uid s (b !! "complete") e]) st))).
Proof.
  pose proof (validateTaskCreate_spec b) as (Hnil & Hpaths & Htitle & Hcomplete).
  unfold createTask.
  destruct (validationResult validateTaskCreate b) as [errs b'].
  cbn [fst snd] in *. split.
  - intros Hbad. destruct errs as [|err errs].
    + destruct Hnil as [Hnil _]. destruct (Hnil eq_refl) as [Ht Hc].
      by rewrite Ht, Hc in Hbad.
    + done.
  - intros [Ht Hc]%andb_true_iff He Hfresh.
    destruct Hnil as [_ Hnil]. rewrite (Hnil (conj Ht Hc)).
    destruct (b !! "title") as [[| | |s]|] eqn:Es; try done.
    exists s. split; [done|].
    rewrite (Htitle s eq_refl), Hcomplete, He. cbn [mbind option_bind castTitle toString].
    rewrite trim_idem.
    unfold new_task.
    destruct (b !! "complete") as [v|]; cbn [default mbind option_bind].
    + destruct (boolean_like_cast v Hc) as [c Ec].
      unfold id. by rewrite Ec, bool_decide_eq_false_2.
    + cbn [castBoolean]. by rewrite bool_decide_eq_false_2.
Qed.

(** ** Writes and the cache *)

Ltac handler_cases :=
  repeat match goal with
    | |- context [validationResult ?c ?b] =>
        let errs := fresh "errs" in
        let b' := fresh "b'" in
        destruct (validationResult c b) as [[|? errs] b']
    | |- context [match ?x with _ => _ end] =>
        let E := fresh "E" in destruct x eqn:E
    end.

(** What a write does to the state: nothing when it fails; when it
    succeeds, its owner's cache entry is removed and nothing else in the
    cache changes. *)
Lemma write_effect uid op e st :
  is_write op = true →
  if succeeded (run_op uid op e st).1
  then cache (run_op uid op e st).2 = NodeCache.del (cacheKey uid) (cache st)
  else (run_op uid op e st).2 = st.
Proof.
  destruct op as [|b|id|id b|id]; try done; intros _; cbn [run_op].
  - unfold createTask. handler_cases; done.
  - unfold updateTask. handler_cases; done.
  - unfold deleteTask. handler_cases; done.
Qed.

(** C10. A create, update or delete request that fails, whether on
    validation, on a task that is not found or on the store, leaves the
    cache as it was, the entry of the caller included; the entry is
    removed only by a request that succeeds. *)
Theorem failed_write_keeps_cache uid op e st :
  is_write op = true →
  (succeeded (run_op uid op e st).1 = false →
     cache (run_op uid op e st).2 = cache st ∧
     cache (run_op uid op e st).2 !! cacheKey uid = cache st !! cacheKey uid) ∧
  (cache (run_op uid op e st).2 ≠ cache st → succeeded (run_op uid op e st).1 = true).
Proof.
  intros Hw. pose proof (write_effect uid op e st Hw) as H.
  destruct (succeeded (run_op uid op e st).1).
  - by split.
  - rewrite H. by split.
Qed.

Lemma remove_first_no_id p (l : list Task) x0 z :
  NoDup (_id <$> l) → List.find p l = Some x0 →
  z ∈ remove_first p l → _id z ≠ _id x0.
Proof.
  induction l as [|y l IH]; [done|].
  rewrite fmap_cons, NoDup_cons. intros [Hy Hnd]. simpl.
  destruct (p y) eqn:Hp.
  - intros [= ->] Hz E. destruct Hy. rewrite <- E. by apply list_elem_of_fmap_2.
  - intros Hf [->|Hz]%elem_of_cons; [|by eapply IH].
    intros E. destruct Hy. rewrite E.
    apply List.find_some in Hf as [Hin _].
    apply list_elem_of_fmap_2. by apply list_elem_of_In.
Qed.

(** After the owner's entry is gone, GET /tasks reads the store. *)
Lemma listTasks_miss uid e st :
  cache st !! cacheKey uid = None → db_error e = None →
  (listTasks uid e st).1 = respond 200 (BTasks (find_tasks uid (tasks st))).
Proof.
  intros Hc He. unfold listTasks, NodeCache.get. by rewrite Hc, He.
Qed.

(** A write and then a list request of the same owner, each run with no
    other request in between: when the write has succeeded, the list
    request, at whatever time, is answered from the store as the write
    left it: the task created or updated is in the answer when the
    owner still owns it, and the task deleted is not. *)
Lemma write_then_list uid op e st e' :
  is_write op = true →
  succeeded (run_op uid op e st).1 = true →
  db_error e' = None →
  (listTasks uid e' (run_op uid op e st).2).1
    = respond 200 (BTasks (find_tasks uid (tasks (run_op uid op e st).2))) ∧
  (∀ x, x ∈ resp_tasks (run_op uid op e st).1 → userId x = Some uid →
        x ∈ find_tasks uid (tasks (run_op uid op e st).2)) ∧
  (∀ id, op = DeleteTask id → ids_unique st →
        ∀ x, x ∈ find_tasks uid (tasks (run_op uid op e st).2) → _id x ≠ id).
Proof.
  intros Hw Hok He'.
  pose proof (write_effect uid op e st Hw) as Hc. rewrite Hok in Hc.
  split; [|split].
  - apply listTasks_miss; [|done]. rewrite Hc. apply lookup_delete_eq.
  - intros x Hx Hu. apply elem_of_find_tasks. split; [|done].
    destruct op as [|b|id|id b|id]; try done; cbn [run_op] in *.
    + revert Hx Hok. unfold createTask. handler_cases; try done.
      cbn. intros ->%list_elem_of_singleton _. apply elem_of_app. right. by left.
    + revert Hx Hok. unfold updateTask. handler_cases; try done.
      cbn. intros ->%list_elem_of_singleton _. by eapply replace_first_has.
    + revert Hx Hok. unfold deleteTask. handler_cases; try done.
      cbn. by intros ?%elem_of_nil.
  - intros id -> Hnd x [Hx _]%elem_of_find_tasks. cbn [run_op] in *.
    revert Hx Hok. unfold deleteTask. handler_cases; try done.
    cbn. intros Hx _.
    match goal with H : findOne _ _ _ = Some ?t |- _ =>
      pose proof (findOne_Some _ _ _ _ H) as (_ & <- & _);
      by eapply remove_first_no_id
    end.
Qed.

(** ** Invariants of the task collection and of the cache, between
    requests that run one after the other *)

Lemma ids_unique_run_op uid op e st :
  ids_unique st → ids_unique (run_op uid op e st).2.
Proof.
  unfold ids_unique. intros Hnd.
  destruct op as [|b|id|id b|id]; cbn [run_op].
  - unfold listTasks. handler_cases; done.
  - unfold createTask. handler_cases; try done. cbn.
    rewrite fmap_app. apply NoDup_app. split; [done|]. split.
    + intros x Hx ->%list_elem_of_singleton.
      by match goal with H : bool_decide _ = false |- _ =>
        apply bool_decide_eq_false in H end.
    + apply NoDup_singleton.
  - unfold getTask. handler_cases; done.
  - unfold updateTask. handler_cases; try done. cbn.
    rewrite replace_first_ids; [done|].
    intros x _ [Hx _]%owned_by_true.
    match goal with
    | H : findOne _ _ _ = Some _, H' : apply_update _ _ _ = Some _ |- _ =>
        apply findOne_Some in H as (_ & Hid & _);
        unfold apply_update in H'; case_match; [|done];
        injection H' as <-; cbn; congruence
    end.
  - unfold deleteTask. handler_cases; try done. cbn. by apply remove_first_ids.
Qed.

Lemma cache_owned_weaken (c c' : gmap string NodeCache.entry) (l l' : list Task) users1 users2 :
  cache_owned {| users := users1; tasks := l; cache := c |} →
  (∀ u ent, c' !! cacheKey u = Some ent →
     c !! cacheKey u = Some ent ∧
     ∀ y, y ∈ l → userId y = Some u → y ∈ l') →
  cache_owned {| users := users2; tasks := l'; cache := c' |}.
Proof.
  intros H Hc u ent x Hent Hx. cbn in *.
  destruct (Hc u ent Hent) as [Hent' Hl].
  destruct (H u ent x Hent' Hx) as (y & Hy & Hid & Hu). eauto.
Qed.

Lemma other_key_after_del uid u (c : gmap string NodeCache.entry) ent :
  NodeCache.del (cacheKey uid) c !! cacheKey u = Some ent →
  c !! cacheKey u = Some ent ∧ u ≠ uid.
Proof.
  unfold NodeCache.del. intros [Hne H]%lookup_delete_Some. split; [done|].
  by intros ->.
Qed.

Lemma cache_owned_run_op uid op e st :
  cache_owned st → cache_owned (run_op uid op e st).2.
Proof.
  intros Hinv. destruct st as [us l c].
  destruct op as [|b|id|id b|id]; cbn [run_op].
  - (* GET /tasks *)
    unfold listTasks. cbn [cache tasks].
    destruct (NodeCache.get (cacheKey uid) (now e) c) as [[hit|] c1] eqn:Eg.
    + apply get_Some in Eg as [-> _]. done.
    + apply get_None in Eg as ->.
      destruct (db_error e).
      * eapply cache_owned_weaken; [done|]. cbn.
        intros u ent [_ H]%lookup_delete_Some. done.
      * intros u ent x. cbn. unfold NodeCache.set.
        destruct (decide (cacheKey u = cacheKey uid)) as [Hk|Hk].
        -- rewrite Hk, lookup_insert_eq. intros [= <-]. cbn.
           apply cacheKey_inj in Hk as ->.
           intros [Hx Hu]%elem_of_find_tasks. eauto.
        -- rewrite lookup_insert_ne, lookup_delete_ne by done.
           intros Hent Hx. by apply (Hinv u ent x).
  - (* POST /tasks *)
    unfold createTask. handler_cases; try done. cbn.
    eapply cache_owned_weaken; [done|]. cbn.
    intros owner ent [Hent _]%other_key_after_del. split; [done|].
    intros y Hy _. apply elem_of_app. by left.
  - unfold getTask. handler_cases; done.
  - (* PUT /tasks/:id *)
    unfold updateTask. handler_cases; try done. cbn.
    eapply cache_owned_weaken; [done|]. cbn.
    intros owner ent [Hent Hne]%other_key_after_del. split; [done|].
    intros y Hy Hu. apply replace_first_keeps; [done|].
    apply not_true_iff_false. intros [_ ?]%owned_by_true. congruence.
  - (* DELETE /tasks/:id *)
    unfold deleteTask. handler_cases; try done. cbn.
    eapply cache_owned_weaken; [done|]. cbn.
    intros owner ent [Hent Hne]%other_key_after_del. split; [done|].
    intros y Hy Hu. apply remove_first_keeps; [done|].
    apply not_true_iff_false. intros [_ ?]%owned_by_true. congruence.
Qed.

Lemma tasks_inv_run_op uid op e st :
  tasks_inv st → tasks_inv (run_op uid op e st).2.
Proof.
  intros [H1 H2]. split; [by apply ids_unique_run_op|by apply cache_owned_run_op].
Qed.

(** A protected route either leaves the state alone or is the handler
    run as the owner that the token names. *)
Lemma protected_cases raw handler e st :
  (protected raw handler e st).2 = st ∨
  ∃ uid, auth raw (now e) = Next uid ∧ protected raw handler e st = handler uid e st.
Proof.
  unfold protected. destruct (auth raw (now e)) as [r|uid]; [by left|right; eauto].
Qed.

Lemma signup_tasks b e st :
  tasks (signup b e st).2 = tasks st ∧ cache (signup b e st).2 = cache st.
Proof. unfold signup. handler_cases; done. Qed.

Lemma login_state b e st : (login b e st).2 = st.
Proof. unfold login. handler_cases; done. Qed.

Lemma tasks_inv_same st st' :
  tasks st' = tasks st → cache st' = cache st → tasks_inv st → tasks_inv st'.
Proof.
  unfold tasks_inv, ids_unique, cache_owned. intros -> ->. done.
Qed.

(** Between requests that run one after the other, a cached list
    holds only ids that its owner owns in the store. With requests that
    overlap this is lost; what is kept then is [lists_tagged]. *)
Lemma reachable_tasks_inv st : reachable st → tasks_inv st.
Proof.
  induction 1 as [|st r e Hr IH].
  - split; [constructor|]. intros u ent x. cbn. by rewrite lookup_empty.
  - destruct r as [b|b|a|a b|a id|a id b|a id]; cbn [app].
    + destruct (signup_tasks b e st). by eapply tasks_inv_same.
    + by rewrite login_state.
    + destruct (protected_cases a listTasks e st) as [->|(uid & _ & ->)]; [done|].
      by apply (tasks_inv_run_op uid ListTasks).
    + destruct (protected_cases a (λ uid, createTask uid b) e st)
        as [->|(uid & _ & ->)]; [done|].
      by apply (tasks_inv_run_op uid (CreateTask b)).
    + destruct (protected_cases a (λ uid, getTask uid id) e st)
        as [->|(uid & _ & ->)]; [done|].
      by apply (tasks_inv_run_op uid (GetTask id)).
    + destruct (protected_cases a (λ uid, updateTask uid id b) e st)
        as [->|(uid & _ & ->)]; [done|].
      by apply (tasks_inv_run_op uid (UpdateTask id b)).
    + destruct (protected_cases a (λ uid, deleteTask uid id) e st)
        as [->|(uid & _ & ->)]; [done|].
      by apply (tasks_inv_run_op uid (DeleteTask id)).
Qed.

(** ** Ownership *)


(** ** Tokens *)

(** C4. A token issued for a subject carries the subject and an expiry
    3600 seconds after its issue time, and at every time before that
    expiry verification succeeds and returns these claims. For every
    token, verification fails exactly when the signature does not
    verify, the token does not decode, or the time is at or past the
    expiry it carries; when it succeeds it returns the claims that the
    token carries. *)
Theorem token_roundtrip_and_failure :
  (∀ id secret t0 t1,
     let claims := {| p_id := id; iat := t0 / 1000; exp := t0 / 1000 + 3600 |} in
     jws_decode (jwt_sign id secret t0) = Some claims ∧
     (t1 / 1000 < exp claims →
        jwt_verify (jwt_sign id secret t0) secret t1 = inl claims)) ∧
  (∀ token secret t1,
     (∃ err, jwt_verify token secret t1 = inr err) ↔
     jws_verify token secret = false ∨
     jws_decode token = None ∨
     ∃ decoded, jws_decode token = Some decoded ∧ exp decoded ≤ t1 / 1000) ∧
  (∀ token secret t1 decoded,
     jwt_verify token secret t1 = inl decoded → jws_decode token = Some decoded).
Proof.
  split; [|split].
  - intros id secret t0 t1 claims. unfold jwt_sign, jwt_verify. fold claims.
    rewrite jws_decode_sign, jws_verify_sign. split; [done|].
    intros Hlt. cbn [negb]. by rewrite (proj2 (Z.leb_gt _ _) Hlt).
  - intros token secret t1. unfold jwt_verify.
    destruct (jws_decode token) as [decoded|]; [|split; eauto].
    destruct (jws_verify token secret); cbn [negb].
    + destruct (Z.leb_spec (exp decoded) (t1 / 1000)).
      * split; eauto 6.
      * split; [by intros [? ?]|].
        intros [?|[?|(d & [= <-] & ?)]]; [done|done|lia].
    + split; eauto.
  - intros token secret t1 decoded. unfold jwt_verify.
    destruct (jws_decode token) as [d|]; [|done].
    destruct (negb _); [done|]. case_match; [done|]. by intros [= ->].
Qed.

(** ** The identity middleware *)

Lemma extract_token_bearer token :
  extract_token (Some ("Bearer " +:+ token)) = Some token.
Proof.
  unfold extract_token. by rewrite startsWith_app, replace_prefix.
Qed.

(** C5. A request to a protected route without an Authorization
    header, or with one that does not begin with "Bearer ", is answered
    401 "Access denied: missing token" whatever the handler is, which
    therefore does not run. With a header that carries a token, a token
    that does not verify is answered 401 "Invalid or expired token",
    and one that verifies makes the handler run as the subject of the
    token. *)
Theorem auth_gate raw handler e st :
  missing_token = respond 401 (BError "Access denied: missing token") ∧
  invalid_token = respond 401 (BError "Invalid or expired token") ∧
  (raw = None ∨ (∃ r, raw = Some r ∧ JS.startsWith "Bearer " r = false) →
     auth raw (now e) = Rejected missing_token ∧
     protected raw handler e st = (missing_token, st)) ∧
  (∀ token, raw = Some ("Bearer " +:+ token) → token ≠ "" →
     (∀ err, jwt_verify token JWT_SECRET (now e) = inr err →
        auth raw (now e) = Rejected invalid_token ∧
        protected raw handler e st = (invalid_token, st)) ∧
     (∀ decoded, jwt_verify token JWT_SECRET (now e) = inl decoded →
        auth raw (now e) = Next (p_id decoded) ∧
        protected raw handler e st = handler (p_id decoded) e st)).
Proof.
  split; [done|]. split; [done|]. split.
  - intros [->|(r & -> & Hr)]; unfold protected, auth, extract_token;
      by rewrite ?Hr.
  - intros token -> Hne. apply truthy_spec in Hne.
    unfold protected, auth. rewrite extract_token_bearer, Hne. cbn [negb].
    split; intros ? ->; done.
Qed.

(** C9. The header "Bearer " alone, whose token is the empty string,
    is answered as a missing token, not as an invalid one: the empty
    string counts as no token. *)
Theorem empty_bearer_is_missing handler e st :
  extract_token (Some "Bearer ") = Some "" ∧
  auth (Some "Bearer ") (now e) = Rejected missing_token ∧
  protected (Some "Bearer ") handler e st = (missing_token, st) ∧
  missing_token ≠ invalid_token.
Proof. done. Qed.

(** ** Users *)

Lemma User_findOne_Some name l usr :
  User_findOne name l = Some usr → usr ∈ l ∧ username usr = JS.trim name.
Proof.
  intros H. apply List.find_some in H as [Hin Hp].
  by rewrite list_elem_of_In, <- (bool_decide_eq_true (username usr = JS.trim name)).
Qed.

Lemma User_findOne_None name l :
  User_findOne name l = None → JS.trim name ∉ username <$> l.
Proof.
  intros H (usr & E & Hin)%list_elem_of_fmap.
  apply list_elem_of_In in Hin.
  pose proof (List.find_none _ _ H _ Hin) as Hp. cbn in Hp.
  by rewrite bool_decide_eq_true_2 in Hp.
Qed.

(** With unique names, the query finds the user of the name. *)
Lemma User_findOne_unique l usr name :
  NoDup (username <$> l) → usr ∈ l → username usr = JS.trim name →
  User_findOne name l = Some usr.
Proof.
  unfold User_findOne. intros Hnd Hin <-. revert Hnd Hin.
  induction l as [|x l IH]; [by intros _ ?%elem_of_nil|].
  rewrite fmap_cons, NoDup_cons. intros [Hx Hnd] Hin. cbn.
  destruct (decide (username x = username usr)) as [E|E].
  - rewrite bool_decide_eq_true_2 by done.
    apply elem_of_cons in Hin as [->|Hin]; [done|].
    destruct Hx. rewrite E. by apply list_elem_of_fmap_2.
  - rewrite bool_decide_eq_false_2 by done.
    apply elem_of_cons in Hin as [->|Hin]; [done|]. by apply IH.
Qed.

Lemma username_items v :
  let r := run_items "username" [isString; notEmpty; trim; isLength 3 (Some 30%nat)] v in
  r.1 = [] →
  ∃ s, v = Some (JStr s) ∧ r.2 = Some (JStr (JS.trim s))
       ∧ (3 ≤ String.length (JS.trim s))%nat.
Proof.
  destruct v as [[|b|z|s]|]; try done. cbn. fold (JS.trim s).
  intros [_ H]%app_eq_nil. exists s. split; [done|]. split; [done|].
  destruct (String.length (JS.trim s)) as [|[|[|n]]]; try done. lia.
Qed.

Lemma password_items v :
  let r := run_items "password" [isString; notEmpty; isLength 6 None] v in
  r.1 = [] → ∃ s, v = Some (JStr s) ∧ r.2 = v ∧ (6 ≤ String.length s)%nat.
Proof.
  destruct v as [[|b|z|s]|]; try done. cbn.
  intros [_ H]%app_eq_nil. exists s. split; [done|]. split; [done|].
  destruct (String.length s) as [|[|[|[|[|[|n]]]]]]; try done. lia.
Qed.

Lemma credential_items field v :
  let r := run_items field [isString; notEmpty] v in
  r.2 = v ∧ (r.1 = [] ↔ ∃ s, v = Some (JStr s) ∧ s ≠ "").
Proof.
  destruct v as [[|b|z|s]|]; cbn; (split; [done|]);
    try (split; [done|by intros (? & ? & ?)]).
  destruct (String.eqb_spec s ""); cbn; split; try done.
  - by intros (? & [= <-] & ?).
  - eauto.
Qed.

Lemma validateSignup_ok b :
  let r := validationResult validateSignup b in
  r.1 = [] →
  ∃ u p, r.2 !! "username" = Some (JStr (JS.trim u)) ∧
         r.2 !! "password" = Some (JStr p) ∧
         (3 ≤ String.length (JS.trim u))%nat ∧ (6 ≤ String.length p)%nat.
Proof.
  unfold validateSignup. rewrite validationResult_two. cbn [fst snd].
  intros [H1 H2]%app_eq_nil.
  rewrite run_chain_errors in H1. cbn [is_optional existsb orb andb] in H1.
  apply username_items in H1 as (u & Hu & Hu' & Hlen).
  rewrite run_chain_errors, run_chain_lookup_ne in H2 by done.
  cbn [is_optional existsb orb andb] in H2.
  apply password_items in H2 as (p & Hp & Hp' & Hlen').
  exists u, p. split; [|split; [|done]].
  - rewrite run_chain_lookup_ne, run_chain_lookup_eq by done. apply Hu'.
  - rewrite run_chain_lookup_eq, run_chain_lookup_ne by done.
    cbn [is_optional existsb orb andb]. by rewrite Hp', Hp.
Qed.

(** On two strings, the chains of POST /login pass exactly when neither
    is empty, and leave them as they are. *)
Lemma validateLogin_spec b u p :
  b !! "username" = Some (JStr u) → b !! "password" = Some (JStr p) →
  let r := validationResult validateLogin b in
  (r.1 = [] ↔ u ≠ "" ∧ p ≠ "") ∧
  r.2 !! "username" = Some (JStr u) ∧ r.2 !! "password" = Some (JStr p).
Proof.
  intros Hu Hp. unfold validateLogin. rewrite validationResult_two. cbn [fst snd].
  rewrite !run_chain_errors, !run_chain_lookup_ne, !run_chain_lookup_eq by done.
  rewrite !run_chain_lookup_ne by done.
  cbn [is_optional existsb orb andb]. rewrite Hu, Hp.
  pose proof (credential_items "username" (Some (JStr u))) as [Hu2 Hu1].
  pose proof (credential_items "password" (Some (JStr p))) as [Hp2 Hp1].
  cbn zeta in *.
  rewrite Hu2, Hp2. split; [|done]. split.
  - intros [H1 H2]%app_eq_nil.
    apply Hu1 in H1 as (? & [= <-] & ?). apply Hp1 in H2 as (? & [= <-] & ?). done.
  - intros [? ?]. rewrite (proj2 Hu1), (proj2 Hp1) by eauto. done.
Qed.

Lemma users_inv_signup b e st : users_inv st → users_inv (signup b e st).2.
Proof.
  intros [Hnd Hall]. unfold signup.
  pose proof (validateSignup_ok b) as Hv. cbn zeta in Hv.
  destruct (validationResult validateSignup b) as [[|err errs] b']; [|done].
  destruct (Hv eq_refl) as (u & p & Hu & Hp & Hlen & Hlen'). cbn [snd] in *.
  rewrite Hu, Hp. destruct (db_error e); [done|].
  destruct (User_findOne (JS.trim u) (users st)) eqn:Ef; [done|].
  case_bool_decide; [done|]. cbn [snd users set_users]. rewrite trim_idem.
  apply User_findOne_None in Ef. rewrite trim_idem in Ef.
  split; cbn [users set_users].
  - rewrite fmap_app. apply NoDup_app. split; [done|]. split.
    + by intros x Hx ->%list_elem_of_singleton.
    + apply NoDup_singleton.
  - intros usr [Hin | ->%list_elem_of_singleton]%elem_of_app; [by apply Hall|].
    cbn. split; [done|]. eauto.
Qed.

Lemma run_op_users uid op e st : users (run_op uid op e st).2 = users st.
Proof.
  destruct op; cbn [run_op];
    [unfold listTasks|unfold createTask|unfold getTask|unfold updateTask
    |unfold deleteTask]; handler_cases; done.
Qed.

Lemma reachable_users_inv st : reachable st → users_inv st.
Proof.
  assert (∀ st st', users st' = users st → users_inv st → users_inv st') as Hsame.
  { unfold users_inv. by intros ?? ->. }
  induction 1 as [|st r e Hr IH].
  - split; [constructor|]. by intros usr ?%elem_of_nil.
  - destruct r as [b|b|a|a b|a id|a id b|a id]; cbn [app].
    + by apply users_inv_signup.
    + by rewrite login_state.
    + destruct (protected_cases a listTasks e st) as [->|(uid & _ & ->)]; [done|].
      eapply Hsame; [apply (run_op_users uid ListTasks)|done].
    + destruct (protected_cases a (λ uid, createTask uid b) e st)
        as [->|(uid & _ & ->)]; [done|].
      eapply Hsame; [apply (run_op_users uid (CreateTask b))|done].
    + destruct (protected_cases a (λ uid, getTask uid id) e st)
        as [->|(uid & _ & ->)]; [done|].
      eapply Hsame; [apply (run_op_users uid (GetTask id))|done].
    + destruct (protected_cases a (λ uid, updateTask uid id b) e st)
        as [->|(uid & _ & ->)]; [done|].
      eapply Hsame; [apply (run_op_users uid (UpdateTask id b))|done].
    + destruct (protected_cases a (λ uid, deleteTask uid id) e st)
        as [->|(uid & _ & ->)]; [done|].
      eapply Hsame; [apply (run_op_users uid (DeleteTask id))|done].
Qed.

(** ** POST /login *)

Lemma login_cases b e st u p :
  b !! "username" = Some (JStr u) → b !! "password" = Some (JStr p) →
  db_error e = None →
  (login b e st).1 =
  match (validationResult validateLogin b).1 with
  | _ :: _ => respond 400 (BErrors (validationResult validateLogin b).1)
  | [] =>
      match User_findOne u (users st) with
      | None => invalid_credentials
      | Some user =>
          if bcrypt_compare p (password user)
          then respond 200 (BToken (jwt_sign (u_id user) JWT_SECRET (now e)))
          else invalid_credentials
      end
  end.
Proof.
  intros Hu Hp He. unfold login.
  pose proof (validateLogin_spec b u p Hu Hp) as (_ & Hu' & Hp'). cbn zeta in *.
  destruct (validationResult validateLogin b) as [[|err errs] b']; [|done].
  cbn [fst snd] in *. rewrite Hu', Hp', He.
  destruct (User_findOne u (users st)) as [user|]; [|done].
  by destruct (bcrypt_compare p (password user)).
Qed.

(** C6, amended. In a state that the server can reach and with the
    store at work, a login with a user name and a password is answered
    with a token exactly when a user exists whose name is the given
    name without its surrounding white space (the store looks the name
    up trimmed) and whose stored hash matches the password. When the
    two strings pass the request validation, an unknown name and a
    password that does not match get the same answer, 401 "Invalid
    credentials"; and the answer to a login that fails is the same in
    every reachable state, so it tells nothing of the users. A login
    changes no state. *)
Theorem login_noninterference st b e u p :
  reachable st →
  b !! "username" = Some (JStr u) → b !! "password" = Some (JStr p) →
  db_error e = None →
  ((∃ tok, (login b e st).1 = respond 200 (BToken tok)) ↔
   (∃ usr, usr ∈ users st ∧ username usr = JS.trim u
           ∧ bcrypt_compare p (password usr) = true)) ∧
  (u ≠ "" → p ≠ "" →
     ((¬ ∃ usr, usr ∈ users st ∧ username usr = JS.trim u) →
        (login b e st).1 = invalid_credentials) ∧
     (∀ usr, usr ∈ users st → username usr = JS.trim u →
        bcrypt_compare p (password usr) = false →
        (login b e st).1 = invalid_credentials)) ∧
  (∀ st', reachable st' →
     succeeded (login b e st).1 = false → succeeded (login b e st').1 = false →
     (login b e st).1 = (login b e st').1) ∧
  (login b e st).2 = st.
Proof.
  intros [Hnd Hall]%reachable_users_inv Hu Hp He.
  pose proof (validateLogin_spec b u p Hu Hp) as (Hv & _). cbn zeta in Hv.
  split; [|split; [|split]]; [| | |apply login_state].
  - rewrite (login_cases b e st u p) by done.
    destruct (validationResult validateLogin b).1 as [|err errs] eqn:Ev.
    + destruct (User_findOne u (users st)) as [user|] eqn:Ef.
      * apply User_findOne_Some in Ef as Huser. destruct Huser as [Hin Hname].
        destruct (bcrypt_compare p (password user)) eqn:Ec.
        -- split; eauto.
        -- split; [by intros [? ?]|]. intros (usr & Hin' & Hname' & Hc).
           pose proof (User_findOne_unique _ _ _ Hnd Hin' Hname') as Hf.
           rewrite Ef in Hf. injection Hf as ->. congruence.
      * split; [by intros [? ?]|]. intros (usr & Hin' & Hname' & _).
        pose proof (User_findOne_unique _ _ _ Hnd Hin' Hname') as Hf.
        rewrite Ef in Hf. done.
    + split; [by intros [? ?]|]. intros (usr & Hin & Hname & Hc).
      destruct (Hall usr Hin) as (Hlen & pw & s & Hpw & Hlen').
      destruct (decide (u = "")) as [->|Hu0].
      { rewrite Hname in Hlen. cbn in Hlen. lia. }
      destruct (decide (p = "")) as [->|Hp0].
      { rewrite Hpw, bcrypt_empty in Hc; [done|]. intros ->. cbn in Hlen'. lia. }
      destruct Hv as [_ Hv]. by specialize (Hv (conj Hu0 Hp0)).
  - intros Hu0 Hp0. rewrite (login_cases b e st u p) by done.
    destruct Hv as [_ Hv]. rewrite (Hv (conj Hu0 Hp0)). split.
    + intros Hno. destruct (User_findOne u (users st)) as [user|] eqn:Ef; [|done].
      apply User_findOne_Some in Ef as [? ?]. destruct Hno. eauto.
    + intros usr Hin Hname Hc.
      pose proof (User_findOne_unique _ _ _ Hnd Hin Hname) as Hf.
      by rewrite Hf, Hc.
  - intros st' _. rewrite (login_cases b e st u p), (login_cases b e st' u p) by done.
    destruct (validationResult validateLogin b).1 as [|err errs]; [|done].
    destruct (User_findOne u (users st)) as [user|],
             (User_findOne u (users st')) as [user'|];
      repeat case_match; done.
Qed.

(** ** The time to live *)

(** C8, amended. An entry is served up to and including 600 seconds
    after it was stored, and never later: a read later than that finds
    nothing and removes the entry, and GET /tasks then answers from the
    store and stores the fresh list. *)
Theorem cache_ttl key value t0 t1 data :
  0 ≤ t0 →
  stdTTL = 600 ∧
  (t0 + stdTTL * 1000 < t1 →
     (NodeCache.get key t1 (NodeCache.set stdTTL key value t0 data)).1 = None) ∧
  (t1 ≤ t0 + stdTTL * 1000 →
     (NodeCache.get key t1 (NodeCache.set stdTTL key value t0 data)).1 = Some value) ∧
  (∀ uid e st,
     cache st !! cacheKey uid = Some (NodeCache.wrap stdTTL t0 value) →
     t0 + stdTTL * 1000 < now e → db_error e = None →
     (listTasks uid e st).1 = respond 200 (BTasks (find_tasks uid (tasks st))) ∧
     cache (listTasks uid e st).2 !! cacheKey uid
       = Some (NodeCache.wrap stdTTL (now e) (find_tasks uid (tasks st)))).
Proof.
  intros Ht0. unfold stdTTL.
  assert (∀ t, NodeCache.stale t (NodeCache.wrap 600 t0 value)
               = bool_decide (t0 + 600 * 1000 < t)) as Hstale.
  { intros t. unfold NodeCache.stale, NodeCache.wrap. cbn.
    case_bool_decide; destruct (Z.eqb_spec (t0 + 600000) 0),
      (Z.ltb_spec (t0 + 600000) t); cbn; try done; lia. }
  split; [done|]. split; [|split].
  - intros Hlt. unfold NodeCache.get, NodeCache.set.
    by rewrite lookup_insert_eq, Hstale, bool_decide_eq_true_2.
  - intros Hle. unfold NodeCache.get, NodeCache.set.
    rewrite lookup_insert_eq, Hstale, bool_decide_eq_false_2 by lia. done.
  - intros uid e st Hent Hlt He. unfold listTasks, NodeCache.get.
    rewrite Hent, Hstale, bool_decide_eq_true_2, He by done. cbn.
    split; [done|]. unfold NodeCache.set. by rewrite lookup_insert_eq.
Qed.

(** ** PUT /tasks/:id *)

(** What a successful update leaves of a task: its id and creation
    time always, its owner when the body has no [userId]. *)
Lemma update_frame uid id b e st task :
  (updateTask uid id b e st).1 = respond 200 (BTask task) →
  ∃ x, findOne id uid (tasks st) = Some x ∧
       _id task = _id x ∧ createdAt task = createdAt x ∧
       (b !! "userId" = None → userId task = userId x).
Proof.
  unfold updateTask.
  pose proof (run_chain_lookup_ne "complete" [optional; isBoolean]
                (run_chain ("title", [optional; isString; notEmpty; trim; isLength 3 None]) b).2
                "userId") as H2.
  pose proof (run_chain_lookup_ne "title" [optional; isString; notEmpty; trim; isLength 3 None]
                b "userId") as H1.
  unfold validateTaskUpdate. rewrite validationResult_two.
  rewrite H1 in H2 by done. specialize (H2 ltac:(done)).
  set (b' := (run_chain _ (run_chain _ b).2).2) in *.
  destruct (run_chain _ b).1; [|done]. cbn [app].
  destruct (run_chain _ _).1; [|done].
  destruct (cast_update b') as [d|] eqn:Ed; [|done].
  destruct (db_error e); [done|].
  destruct (findOne id uid (tasks st)) as [x|]; [|done].
  destruct (apply_update d (now e) x) as [y|] eqn:Ea; [|done].
  intros [= ->]. exists x. split; [done|].
  unfold apply_update in Ea. case_match; [|done]. injection Ea as <-. cbn.
  split; [done|]. split; [done|]. intros Hb. rewrite Hb in H2.
  unfold cast_update in Ed. rewrite H2 in Ed.
  destruct (cast_key castTitle _), (cast_key castBoolean _); try done. cbn in Ed.
  destruct (cast_key castObjectId (b' !! "_id")); [|done]. cbn in Ed.
  by injection Ed as <-.
Qed.

(** C2, on the code. The handler hands the whole body to
    [findOneAndUpdate]: the owner of a task, sending [userId], gives
    the task to another user; the update is answered 200 and the task
    is then found by the other user and no longer by the first. *)
Theorem update_reassigns_owner :
  let b : body_t := {[ "userId" := JStr Sample.bob ]} in
  let r := updateTask Sample.alice (_id Sample.milk) b Sample.e600 Sample.st1 in
  userId Sample.milk = Some Sample.alice ∧
  status r.1 = 200 ∧
  (userId <$> resp_tasks r.1) = [Some Sample.bob] ∧
  (userId <$> tasks r.2) = [Some Sample.bob] ∧
  status (getTask Sample.bob (_id Sample.milk) Sample.e600 r.2).1 = 200 ∧
  status (getTask Sample.alice (_id Sample.milk) Sample.e600 r.2).1 = 404.
Proof. vm_compute. done. Qed.

(** * Further properties *)

(** ** The Authorization header *)

Lemma startsWith_inv p s : JS.startsWith p s = true → ∃ r, s = p +:+ r.
Proof.
  revert s. induction p as [|a p IH]; intros s H; [by exists s|].
  destruct s as [|b s]; [done|]. simpl in H.
  destruct (Ascii.eqb_spec a b) as [->|]; [|done].
  destruct (IH _ H) as [r ->]. by exists r.
Qed.

(** X1. The middleware extracts a token exactly from the headers that
    are "Bearer " followed by that token: only the leading scheme is
    removed, so a token is kept whole even if it contains "Bearer "
    itself, and the token is empty exactly for the header "Bearer ". *)
Theorem extract_token_spec raw token :
  (extract_token raw = Some token ↔ raw = Some ("Bearer " +:+ token)) ∧
  (extract_token raw = Some "" ↔ raw = Some "Bearer ").
Proof.
  assert (extract_token raw = Some token ↔ raw = Some ("Bearer " +:+ token)) as H.
  { split.
    - unfold extract_token. destruct raw as [r|]; [|done].
      destruct (JS.startsWith "Bearer " r) eqn:E; [|done].
      apply startsWith_inv in E as [t ->]. rewrite replace_prefix. by intros [= ->].
    - intros ->. apply extract_token_bearer. }
  split; [done|]. split.
  - unfold extract_token. destruct raw as [r|]; [|done].
    destruct (JS.startsWith "Bearer " r) eqn:E; [|done].
    apply startsWith_inv in E as [t ->]. rewrite replace_prefix. by intros [= ->].
  - intros ->. done.
Qed.

Lemma jwt_verify_inl token secret now decoded :
  jwt_verify token secret now = inl decoded ↔
  jws_decode token = Some decoded ∧ jws_verify token secret = true
  ∧ now / 1000 < exp decoded.
Proof.
  unfold jwt_verify. destruct (jws_decode token) as [d|]; [|by split; [|intros []]].
  destruct (jws_verify token secret); cbn [negb].
  - destruct (Z.leb_spec (exp d) (now / 1000)).
    + split; [done|]. intros ([= ->] & _ & ?). lia.
    + split; [by intros [= ->]|]. by intros ([= ->] & _).
  - split; [done|]. by intros (_ & ? & _).
Qed.

(** X2. The middleware binds an identity only from a header "Bearer "
    followed by a non-empty token that decodes, verifies under the
    server's secret and has not reached its expiry; the identity is the
    [id] that the token carries. *)
Theorem auth_sound raw now uid :
  auth raw now = Next uid →
  ∃ token decoded,
    raw = Some ("Bearer " +:+ token) ∧ token ≠ "" ∧
    jws_decode token = Some decoded ∧ jws_verify token JWT_SECRET = true ∧
    now / 1000 < exp decoded ∧ p_id decoded = uid.
Proof.
  unfold auth. destruct (extract_token raw) as [token|] eqn:E; [|done].
  destruct (JS.truthy token) eqn:Ht; [|done]. cbn [negb].
  destruct (jwt_verify token JWT_SECRET now) as [decoded|] eqn:Ev; [|done].
  intros [= <-]. exists token, decoded.
  assert (raw = Some ("Bearer " +:+ token)) as ->.
  { unfold extract_token in E. destruct raw as [r|]; [|done].
    destruct (JS.startsWith "Bearer " r) eqn:Es; [|done].
    apply startsWith_inv in Es as [t ->]. rewrite replace_prefix in E. congruence. }
  apply truthy_spec in Ht. apply jwt_verify_inl in Ev as (? & ? & ?). done.
Qed.

(** A token of the server, presented at a later time. *)
Lemma auth_issued id t0 t1 :
  jwt_sign id JWT_SECRET t0 ≠ "" →
  auth (Some ("Bearer " +:+ jwt_sign id JWT_SECRET t0)) t1 =
  if bool_decide (t1 / 1000 < t0 / 1000 + 3600) then Next id
  else Rejected invalid_token.
Proof.
  intros Hne. apply truthy_spec in Hne.
  unfold auth. rewrite extract_token_bearer, Hne. cbn [negb].
  unfold jwt_verify, jwt_sign in *.
  rewrite jws_decode_sign, jws_verify_sign. cbn [negb exp].
  case_bool_decide; destruct (Z.leb_spec (t0 / 1000 + 3600) (t1 / 1000)); try lia; done.
Qed.

(** X3. The token that a successful signup returns, sent back as
    "Bearer <token>", is accepted by the middleware as the new user for
    the 3600 seconds that follow the second of the signup, and answered
    401 "Invalid or expired token" from then on. *)
Theorem signup_token_authenticates b e st m token id name created t1 :
  (signup b e st).1 = respond 201 (BSignup m token id name created) →
  token ≠ "" →
  id = new_id e ∧
  (∃ usr, usr ∈ users (signup b e st).2 ∧ u_id usr = id ∧ username usr = name) ∧
  auth (Some ("Bearer " +:+ token)) t1 =
    if bool_decide (t1 / 1000 < now e / 1000 + 3600) then Next id
    else Rejected invalid_token.
Proof.
  intros H Hne.
  assert (token = jwt_sign (new_id e) JWT_SECRET (now e) ∧ id = new_id e ∧
          ∃ usr, usr ∈ users (signup b e st).2 ∧ u_id usr = id ∧ username usr = name)
    as (-> & -> & Husr).
  { revert H. unfold signup. handler_cases; try done. cbn.
    intros [= <- <- <- <- <-]. split; [done|]. split; [done|].
    eexists. split; [apply elem_of_app; right; by left|done]. }
  split; [done|]. split; [done|]. by apply auth_issued.
Qed.

(** X4. The token that a successful login returns belongs to the
    stored user whose name is the name that was sent, without its
    surrounding white space: the middleware accepts it as that user's
    id for 3600 seconds and rejects it from then on. *)
Theorem login_token_authenticates b e st token t1 :
  (login b e st).1 = respond 200 (BToken token) →
  token ≠ "" →
  ∃ usr name, usr ∈ users st ∧ b !! "username" = Some (JStr name) ∧
    username usr = JS.trim name ∧
    auth (Some ("Bearer " +:+ token)) t1 =
      if bool_decide (t1 / 1000 < now e / 1000 + 3600) then Next (u_id usr)
      else Rejected invalid_token.
Proof.
  unfold login, validateLogin. rewrite validationResult_two.
  set (c1 := ("username", [isString; notEmpty])).
  set (c2 := ("password", [isString; notEmpty])).
  assert ((run_chain c2 (run_chain c1 b).2).2 !! "username" = b !! "username") as Hu.
  { unfold c2, c1. rewrite run_chain_lookup_ne, run_chain_lookup_eq by done.
    cbn [is_optional existsb orb andb].
    apply (credential_items "username" (b !! "username")). }
  destruct ((run_chain c1 b).1 ++ (run_chain c2 (run_chain c1 b).2).1); [|done].
  rewrite Hu.
  destruct (b !! "username") as [[| | |name]|]; try done.
  destruct (_ !! "password") as [[| | |pw]|]; try done.
  destruct (db_error e); [done|].
  destruct (User_findOne name (users st)) as [usr|] eqn:Ef; [|done].
  destruct (bcrypt_compare pw (password usr)); [|done].
  cbn. intros [= <-] Hne.
  apply User_findOne_Some in Ef as [Hin Hname].
  exists usr, name. split; [done|]. split; [done|]. split; [done|].
  by apply auth_issued.
Qed.

(** ** POST /signup *)

Lemma username_items_iff v :
  let r := run_items "username" [isString; notEmpty; trim; isLength 3 (Some 30%nat)] v in
  (r.1 = [] ↔ valid_username v = true) ∧
  (∀ s, v = Some (JStr s) → r.2 = Some (JStr (JS.trim s))).
Proof.
  destruct v as [[|b|z|s]|]; simpl;
    (split; [|intros ? [= <-] || (intros ? ?); done]); try by split.
  fold (JS.trim s). destruct s as [|c s]; [by split|].
  change (negb (String.eqb (String c s) "")) with true. cbn [app].
  rewrite app_nil_r.
  destruct (_ && _); by split.
Qed.

Lemma password_items_iff v :
  let r := run_items "password" [isString; notEmpty; isLength 6 None] v in
  (r.1 = [] ↔ valid_password v = true) ∧ r.2 = v.
Proof.
  destruct v as [[|b|z|s]|]; simpl; (split; [|done]); try by split.
  destruct s as [|c s]; [by split|].
  change (negb (String.eqb (String c s) "")) with true. cbn [app].
  rewrite app_nil_r, andb_true_r.
  change (match String.length (String c s) with
          | S (S (S (S (S (S _))))) => true | _ => false end)
    with (6 <=? String.length (String c s))%nat.
  destruct (6 <=? String.length (String c s))%nat; by split.
Qed.

(** What [validationResult] finds on POST /signup. *)
Lemma validateSignup_spec b :
  let r := validationResult validateSignup b in
  (r.1 = [] ↔ valid_username (b !! "username") = true
              ∧ valid_password (b !! "password") = true) ∧
  (∀ k, k ∈ path <$> r.1 ↔
        (k = "username" ∧ valid_username (b !! "username") = false) ∨
        (k = "password" ∧ valid_password (b !! "password") = false)) ∧
  (∀ s, b !! "username" = Some (JStr s) → r.2 !! "username" = Some (JStr (JS.trim s))) ∧
  r.2 !! "password" = b !! "password".
Proof.
  unfold validateSignup. rewrite validationResult_two. cbn [fst snd].
  set (c1 := ("username", [isString; notEmpty; trim; isLength 3 (Some 30%nat)])).
  set (b1 := (run_chain c1 b).2).
  assert (b1 !! "password" = b !! "password") as Hc
    by (by apply run_chain_lookup_ne).
  pose proof (username_items_iff (b !! "username")) as [Ht1 Ht2]. cbn zeta in Ht1, Ht2.
  pose proof (password_items_iff (b !! "password")) as [Hp1 Hp2]. cbn zeta in Hp1, Hp2.
  assert ((run_chain c1 b).1 = [] ↔ valid_username (b !! "username") = true) as He1.
  { unfold c1. by rewrite run_chain_errors. }
  assert (Forall (λ e, path e = "username") (run_chain c1 b).1) as Hp1'.
  { unfold c1. rewrite run_chain_errors. apply run_items_paths. }
  set (c2 := ("password", [isString; notEmpty; isLength 6 None])).
  assert ((run_chain c2 b1).1 = [] ↔ valid_password (b !! "password") = true) as He2.
  { unfold c2. by rewrite run_chain_errors, Hc. }
  assert (Forall (λ e, path e = "password") (run_chain c2 b1).1) as Hp2'.
  { unfold c2. rewrite run_chain_errors. apply run_items_paths. }
  split; [|split; [|split]].
  - rewrite <- He1, <- He2. split.
    + by intros [-> ->]%app_eq_nil.
    + by intros [-> ->].
  - intros k. rewrite fmap_app, elem_of_app.
    rewrite (paths_of_field _ _ _ Hp1'), (paths_of_field _ _ _ Hp2').
    rewrite <- !not_true_iff_false, <- He1, <- He2. done.
  - intros s Hs. unfold c2. rewrite run_chain_lookup_ne by done.
    unfold b1, c1. rewrite run_chain_lookup_eq. simpl. by apply Ht2.
  - unfold c2. rewrite run_chain_lookup_eq, Hc. cbn [is_optional existsb orb andb].
    done.
Qed.

Lemma User_findOne_is_Some name (l : list User) :
  JS.trim name ∈ username <$> l → is_Some (User_findOne name l).
Proof.
  intros Hin. destruct (User_findOne name l) eqn:E; [done|].
  by apply User_findOne_None in E.
Qed.

Lemma User_findOne_last name (l : list User) usr :
  User_findOne name l = None → username usr = JS.trim name →
  User_findOne name (l ++ [usr]) = Some usr.
Proof.
  intros Hn Hu. unfold User_findOne in *.
  induction l as [|x l IH]; cbn -[JS.trim] in *.
  - by rewrite bool_decide_eq_true_2.
  - destruct (bool_decide (username x = JS.trim name)); [done|]. by apply IH.
Qed.

(** The handler of POST /signup, by the fields of the body. *)
Lemma signup_cases b e st :
  signup b e st =
  match (validationResult validateSignup b).1 with
  | _ :: _ => (respond 400 (BErrors (validationResult validateSignup b).1), st)
  | [] =>
      match b !! "username", b !! "password", db_error e with
      | Some (JStr s), Some (JStr p), None =>
          match User_findOne (JS.trim s) (users st) with
          | Some _ => (respond 400 (BError "Username already exists"), st)
          | None =>
              if bool_decide (new_id e ∈ u_id <$> users st) then
                (respond 500 (BError "Failed to create user"), st)
              else
                (respond 201 (BSignup "User created successfully"
                                (jwt_sign (new_id e) JWT_SECRET (now e))
                                (new_id e) (JS.trim s) (now e)),
                 set_users (users st ++ [new_user s p e]) st)
          end
      | _, _, _ => (respond 500 (BError "Failed to create user"), st)
      end
  end.
Proof.
  pose proof (validateSignup_spec b) as (Hnil & _ & Hu & Hp). cbn zeta in *.
  unfold signup.
  destruct (validationResult validateSignup b) as [[|err errs] b']; [|done].
  cbn [fst snd] in *. destruct Hnil as [Hnil _].
  destruct (Hnil eq_refl) as [Hvu Hvp].
  destruct (b !! "username") as [[| | |s]|]; try done.
  destruct (b !! "password") as [[| | |p]|]; try done.
  rewrite (Hu s eq_refl), Hp. destruct (db_error e); [done|].
  destruct (User_findOne (JS.trim s) (users st)); [done|].
  case_bool_decide; [done|]. unfold new_user. cbn. by rewrite trim_idem.
Qed.

(** X5. POST /signup is answered 400 with a detail that names exactly
    the fields at fault, and stores nothing, when the user name is not
    a string of 3 to 30 characters once trimmed or the password is not
    a string of at least 6 characters (the password is not trimmed).
    Otherwise, with the store at work, a name already taken is answered
    400 "Username already exists" and changes nothing, and a free name
    is answered 201: the user is stored under the trimmed name with the
    hash of the password, never the password itself. *)
Theorem signup_validation b e st :
  (valid_username (b !! "username") && valid_password (b !! "password") = false →
     status (signup b e st).1 = 400 ∧ (signup b e st).2 = st ∧
     ∀ k, k ∈ error_paths (signup b e st).1 ↔
          (k = "username" ∧ valid_username (b !! "username") = false) ∨
          (k = "password" ∧ valid_password (b !! "password") = false))
  ∧
  (valid_username (b !! "username") && valid_password (b !! "password") = true →
     db_error e = None →
     ∃ s p, b !! "username" = Some (JStr s) ∧ b !! "password" = Some (JStr p) ∧
       (is_Some (User_findOne (JS.trim s) (users st)) →
          signup b e st = (respond 400 (BError "Username already exists"), st)) ∧
       (User_findOne (JS.trim s) (users st) = None →
        new_id e ∉ u_id <$> users st →
          signup b e st =
            (respond 201 (BSignup "User created successfully"
                            (jwt_sign (new_id e) JWT_SECRET (now e))
                            (new_id e) (JS.trim s) (now e)),
             set_users (users st ++ [new_user s p e]) st))).
Proof.
  pose proof (validateSignup_spec b) as (Hnil & Hpaths & _ & _). cbn zeta in *.
  rewrite signup_cases. split.
  - intros Hbad.
    destruct (validationResult validateSignup b).1 as [|err errs] eqn:E.
    + destruct Hnil as [Hnil _]. destruct (Hnil eq_refl) as [Ht Hc].
      by rewrite Ht, Hc in Hbad.
    + done.
  - intros [Hu Hp]%andb_true_iff He.
    destruct Hnil as [_ Hnil]. rewrite (Hnil (conj Hu Hp)), He.
    destruct (b !! "username") as [[| | |s]|]; try done.
    destruct (b !! "password") as [[| | |p]|]; try done.
    exists s, p. split; [done|]. split; [done|]. split.
    + by intros [usr ->].
    + intros -> Hfresh. by rewrite bool_decide_eq_false_2.
Qed.

(** X6. Once a signup has succeeded, a later signup with the same
    [username] field is answered 400 and changes nothing; when its
    password is acceptable the answer is "Username already exists". *)
Theorem signup_twice b b2 e e' st :
  status (signup b e st).1 = 201 →
  b2 !! "username" = b !! "username" →
  db_error e' = None →
  status (signup b2 e' (signup b e st).2).1 = 400 ∧
  (signup b2 e' (signup b e st).2).2 = (signup b e st).2 ∧
  (valid_password (b2 !! "password") = true →
     (signup b2 e' (signup b e st).2).1 = respond 400 (BError "Username already exists")).
Proof.
  intros H Hb He'.
  assert (∃ s p, b !! "username" = Some (JStr s) ∧
                 valid_username (b !! "username") = true ∧
                 (signup b e st).2 = set_users (users st ++ [new_user s p e]) st)
    as (s & p & Hs & Hv & ->).
  { pose proof (validateSignup_spec b) as (Hnil & _). cbn zeta in *.
    revert H. rewrite signup_cases.
    destruct (validationResult validateSignup b).1; [|done].
    destruct Hnil as [Hnil _]. destruct (Hnil eq_refl) as [Hvu _].
    destruct (b !! "username") as [[| | |s]|]; try done.
    destruct (b !! "password") as [[| | |p]|]; try done.
    destruct (db_error e); [done|].
    destruct (User_findOne (JS.trim s) (users st)); [done|].
    case_bool_decide; [done|]. eauto. }
  pose proof (validateSignup_spec b2) as (Hnil & _). cbn zeta in *.
  rewrite signup_cases. rewrite Hb, Hs, He' in *.
  assert (is_Some (User_findOne (JS.trim s)
                     (users (set_users (users st ++ [new_user s p e]) st)))) as [usr Hf].
  { apply User_findOne_is_Some. rewrite trim_idem. cbn.
    rewrite fmap_app, elem_of_app. right. by left. }
  destruct (validationResult validateSignup b2).1 eqn:E.
  - destruct Hnil as [Hnil _]. destruct (Hnil eq_refl) as [_ Hvp].
    destruct (b2 !! "password") as [[| | |p2]|]; try done.
    by rewrite Hf.
  - split; [done|]. split; [done|]. intros Hvp.
    destruct Hnil as [_ Hnil]. by specialize (Hnil (conj Hv Hvp)).
Qed.

(** X7. A user who has signed up can log in: after a successful signup,
    a login with the trimmed user name and the same password is
    answered 200 with a token for the new user. *)
Theorem signup_then_login b b2 e e' st s p :
  status (signup b e st).1 = 201 →
  b !! "username" = Some (JStr s) → b !! "password" = Some (JStr p) →
  b2 !! "username" = Some (JStr (JS.trim s)) → b2 !! "password" = Some (JStr p) →
  db_error e' = None →
  (login b2 e' (signup b e st).2).1
    = respond 200 (BToken (jwt_sign (new_id e) JWT_SECRET (now e'))).
Proof.
  intros H Hs Hp Hs2 Hp2 He'.
  pose proof (validateSignup_spec b) as (Hnil & _). cbn zeta in *.
  revert H. rewrite signup_cases.
  destruct (validationResult validateSignup b).1; [|done].
  destruct Hnil as [Hnil _]. destruct (Hnil eq_refl) as [Hvu Hvp].
  rewrite Hs, Hp in *. destruct (db_error e); [done|].
  destruct (User_findOne (JS.trim s) (users st)) eqn:Ef; [done|].
  case_bool_decide; [done|]. intros _. cbn [snd].
  rewrite (login_cases b2 e' _ (JS.trim s) p) by done.
  pose proof (validateLogin_spec b2 (JS.trim s) p Hs2 Hp2) as (Hv & _). cbn zeta in Hv.
  destruct Hv as [_ Hv]. rewrite Hv.
  - cbn [users set_users].
    rewrite (User_findOne_last _ _ (new_user s p e) Ef (eq_sym (trim_idem s))).
    cbn. by rewrite bcrypt_correct.
  - cbn in Hvu, Hvp. split.
    + intros E. rewrite E in Hvu. done.
    + intros ->. done.
Qed.

(** ** Properties of every reachable state *)

Lemma reachable_users_ind (P : list User → Prop) :
  P [] →
  (∀ st b e, P (users st) → P (users (signup b e st).2)) →
  ∀ st, reachable st → P (users st).
Proof.
  intros H0 Hs st. induction 1 as [|st r e Hr IH]; [done|].
  destruct r as [b|b|a|a b|a id|a id b|a id]; cbn [app].
  - by apply Hs.
  - by rewrite login_state.
  - destruct (protected_cases a listTasks e st) as [->|(uid & _ & ->)]; [done|].
    pose proof (run_op_users uid ListTasks e st) as Hu. cbn [run_op] in Hu. by rewrite Hu.
  - destruct (protected_cases a (λ uid, createTask uid b) e st)
      as [->|(uid & _ & ->)]; [done|].
    pose proof (run_op_users uid (CreateTask b) e st) as Hu. cbn [run_op] in Hu. by rewrite Hu.
  - destruct (protected_cases a (λ uid, getTask uid id) e st)
      as [->|(uid & _ & ->)]; [done|].
    pose proof (run_op_users uid (GetTask id) e st) as Hu. cbn [run_op] in Hu. by rewrite Hu.
  - destruct (protected_cases a (λ uid, updateTask uid id b) e st)
      as [->|(uid & _ & ->)]; [done|].
    pose proof (run_op_users uid (UpdateTask id b) e st) as Hu. cbn [run_op] in Hu. by rewrite Hu.
  - destruct (protected_cases a (λ uid, deleteTask uid id) e st)
      as [->|(uid & _ & ->)]; [done|].
    pose proof (run_op_users uid (DeleteTask id) e st) as Hu. cbn [run_op] in Hu. by rewrite Hu.
Qed.

Lemma reachable_tasks_ind (P : list Task → Prop) :
  P [] →
  (∀ uid op e st, P (tasks st) → P (tasks (run_op uid op e st).2)) →
  ∀ st, reachable st → P (tasks st).
Proof.
  intros H0 Hs st. induction 1 as [|st r e Hr IH]; [done|].
  destruct r as [b|b|a|a b|a id|a id b|a id]; cbn [app].
  - by rewrite (proj1 (signup_tasks b e st)).
  - by rewrite login_state.
  - destruct (protected_cases a listTasks e st) as [->|(uid & _ & ->)]; [done|].
    by apply (Hs uid ListTasks).
  - destruct (protected_cases a (λ uid, createTask uid b) e st)
      as [->|(uid & _ & ->)]; [done|].
    by apply (Hs uid (CreateTask b)).
  - destruct (protected_cases a (λ uid, getTask uid id) e st)
      as [->|(uid & _ & ->)]; [done|].
    by apply (Hs uid (GetTask id)).
  - destruct (protected_cases a (λ uid, updateTask uid id b) e st)
      as [->|(uid & _ & ->)]; [done|].
    by apply (Hs uid (UpdateTask id b)).
  - destruct (protected_cases a (λ uid, deleteTask uid id) e st)
      as [->|(uid & _ & ->)]; [done|].
    by apply (Hs uid (DeleteTask id)).
Qed.

(** X8. In every state that the server can reach, no two users share
    an id or a name, and every stored name is trimmed and has 3 to 30
    characters. *)
Theorem reachable_users st :
  reachable st →
  NoDup (u_id <$> users st) ∧ NoDup (username <$> users st) ∧
  ∀ usr, usr ∈ users st →
    JS.trim (username usr) = username usr ∧
    (3 ≤ String.length (username usr) ≤ 30)%nat.
Proof.
  apply (reachable_users_ind (λ l,
    NoDup (u_id <$> l) ∧ NoDup (username <$> l) ∧
    ∀ usr, usr ∈ l → JS.trim (username usr) = username usr ∧
                     (3 ≤ String.length (username usr) ≤ 30)%nat)).
  { split; [constructor|]. split; [constructor|]. by intros usr ?%elem_of_nil. }
  intros st0 b e (Hid & Hname & Hall).
  pose proof (validateSignup_spec b) as (Hnil & _). cbn zeta in *.
  rewrite signup_cases.
  destruct (validationResult validateSignup b).1; [|done].
  destruct Hnil as [Hnil _]. destruct (Hnil eq_refl) as [Hvu _].
  destruct (b !! "username") as [[| | |s]|]; try done.
  destruct (b !! "password") as [[| | |p]|]; try done.
  destruct (db_error e); [done|].
  destruct (User_findOne (JS.trim s) (users st0)) eqn:Ef; [done|].
  case_bool_decide as Hfresh; [done|]. cbn [snd users set_users].
  apply User_findOne_None in Ef. rewrite trim_idem in Ef.
  rewrite !fmap_app. split; [|split].
  - apply NoDup_app. split; [done|]. split; [|apply NoDup_singleton].
    by intros x Hx ->%list_elem_of_singleton.
  - apply NoDup_app. split; [done|]. split; [|apply NoDup_singleton].
    by intros x Hx ->%list_elem_of_singleton.
  - intros usr [Hin | ->%list_elem_of_singleton]%elem_of_app; [by apply Hall|].
    cbn. split; [apply trim_idem|].
    unfold valid_username in Hvu. apply andb_true_iff in Hvu as [H3 H30].
    apply Nat.leb_le in H3, H30. lia.
Qed.

(** ** POST /tasks and PUT /tasks/:id, by the fields of the body *)

Lemma createTask_cases uid b e st :
  createTask uid b e st =
  match (validationResult validateTaskCreate b).1 with
  | _ :: _ => (respond 400 (BErrors (validationResult validateTaskCreate b).1), st)
  | [] =>
      match b !! "title", db_error e with
      | Some (JStr s), None =>
          if bool_decide (new_id e ∈ _id <$> tasks st) then (internal_error, st)
          else
            (respond 201 (BTask (new_task uid s (b !! "complete") e)),
             set_cache (NodeCache.del (cacheKey uid) (cache st))
               (set_tasks (tasks st ++ [new_task uid s (b !! "complete") e]) st))
      | _, _ => (internal_error, st)
      end
  end.
Proof.
  pose proof (validateTaskCreate_spec b) as (Hnil & _ & Htitle & Hcomplete).
  cbn zeta in *. unfold createTask.
  destruct (validationResult validateTaskCreate b) as [[|err errs] b']; [|done].
  cbn [fst snd] in *. destruct Hnil as [Hnil _].
  destruct (Hnil eq_refl) as [Ht Hc].
  destruct (b !! "title") as [[| | |s]|]; try done.
  rewrite (Htitle s eq_refl), Hcomplete.
  cbn [mbind option_bind castTitle toString]. rewrite trim_idem.
  unfold new_task.
  destruct (b !! "complete") as [v|]; cbn [default mbind option_bind].
  - destruct (boolean_like_cast v Hc) as [c Ec]. unfold id. rewrite Ec.
    by destruct (db_error e).
  - cbn [castBoolean]. by destruct (db_error e).
Qed.

Lemma title_items_optional v :
  run_items "title" [optional; isString; notEmpty; trim; isLength 3 None] v
  = run_items "title" [isString; notEmpty; trim; isLength 3 None] v.
Proof.
  rewrite run_items_cons. cbn [run_item fst snd app].
  by destruct (run_items "title" [isString; notEmpty; trim; isLength 3 None] v).
Qed.

(** What [validationResult] finds on PUT /tasks/:id, and what it leaves
    in the body. *)
Lemma validateTaskUpdate_spec b :
  let r := validationResult validateTaskUpdate b in
  (r.1 = [] ↔ valid_title_update (b !! "title") = true
              ∧ valid_complete (b !! "complete") = true) ∧
  (∀ k, k ∈ path <$> r.1 ↔
        (k = "title" ∧ valid_title_update (b !! "title") = false) ∨
        (k = "complete" ∧ valid_complete (b !! "complete") = false)) ∧
  (valid_title_update (b !! "title") = true →
     r.2 !! "title" = match b !! "title" with
                      | Some (JStr s) => Some (JStr (JS.trim s))
                      | _ => None
                      end) ∧
  r.2 !! "complete" = b !! "complete" ∧
  (∀ k, k ≠ "title" → k ≠ "complete" → r.2 !! k = b !! k).
Proof.
  unfold validateTaskUpdate. rewrite validationResult_two. cbn [fst snd].
  set (c1 := ("title", [optional; isString; notEmpty; trim; isLength 3 None])).
  set (b1 := (run_chain c1 b).2).
  assert (b1 !! "complete" = b !! "complete") as Hc
    by (by apply run_chain_lookup_ne).
  pose proof (title_items (b !! "title")) as [Ht1 Ht2]. cbn zeta in Ht1, Ht2.
  assert ((run_chain c1 b).1 = [] ↔ valid_title_update (b !! "title") = true) as He1.
  { unfold c1. rewrite run_chain_errors, title_items_optional.
    cbn [is_optional existsb orb andb].
    destruct (b !! "title") as [v|] eqn:E; [|done].
    rewrite bool_decide_eq_false_2 by done. by destruct v. }
  assert (Forall (λ e, path e = "title") (run_chain c1 b).1) as Hp1.
  { unfold c1. rewrite run_chain_errors. case_match; [constructor|apply run_items_paths]. }
  set (c2 := ("complete", [optional; isBoolean])).
  assert ((run_chain c2 b1).1 = [] ↔ valid_complete (b !! "complete") = true) as He2.
  { unfold c2. rewrite run_chain_errors, Hc.
    destruct (b !! "complete") as [v|]; [|done]. apply complete_items. }
  assert (Forall (λ e, path e = "complete") (run_chain c2 b1).1) as Hp2.
  { unfold c2. rewrite run_chain_errors. case_match; [constructor|apply run_items_paths]. }
  split; [|split; [|split; [|split]]].
  - rewrite <- He1, <- He2. split.
    + by intros [-> ->]%app_eq_nil.
    + by intros [-> ->].
  - intros k. rewrite fmap_app, elem_of_app.
    rewrite (paths_of_field _ _ _ Hp1), (paths_of_field _ _ _ Hp2).
    rewrite <- !not_true_iff_false, <- He1, <- He2. done.
  - intros Hv. unfold c2. rewrite run_chain_lookup_ne by done.
    unfold b1, c1. rewrite run_chain_lookup_eq, title_items_optional.
    cbn [is_optional existsb orb andb].
    destruct (b !! "title") as [[| | |s]|] eqn:E; done.
  - unfold c2. rewrite run_chain_lookup_eq, Hc. cbn [is_optional existsb orb andb].
    destruct (b !! "complete") as [v|] eqn:E; [|done].
    by rewrite bool_decide_eq_false_2.
  - intros k Hk1 Hk2. unfold c2. rewrite run_chain_lookup_ne by done.
    unfold b1, c1. by rewrite run_chain_lookup_ne.
Qed.

(** The update document that a validated body casts to. *)
Lemma cast_update_validated b :
  (validationResult validateTaskUpdate b).1 = [] →
  cast_update (validationResult validateTaskUpdate b).2 =
  (u ← cast_key castObjectId (b !! "userId");
   i ← cast_key castObjectId (b !! "_id");
   Some {| set_title := match b !! "title" with
                        | Some (JStr s) => Some (JS.trim s)
                        | _ => None
                        end;
           set_complete := b !! "complete" ≫= castBoolean;
           set_userId := u; set_id := i |}).
Proof.
  pose proof (validateTaskUpdate_spec b) as (Hnil & _ & Ht & Hc & Hk). cbn zeta in *.
  intros E. destruct Hnil as [Hnil _]. destruct (Hnil E) as [Hvt Hvc].
  unfold cast_update. rewrite (Ht Hvt), Hc, !Hk by done.
  assert (cast_key castTitle
            match b !! "title" with
            | Some (JStr s) => Some (JStr (JS.trim s))
            | _ => None
            end
          = Some match b !! "title" with
                 | Some (JStr s) => Some (JS.trim s)
                 | _ => None
                 end) as ->.
  { destruct (b !! "title") as [[| | |s]|]; try done.
    unfold cast_key, castTitle. cbn [toString fmap option_fmap option_map].
    by rewrite trim_idem. }
  assert (cast_key castBoolean (b !! "complete")
          = Some (b !! "complete" ≫= castBoolean)) as ->.
  { destruct (b !! "complete") as [v|]; [|done].
    destruct (boolean_like_cast v Hvc) as [c Ec]. cbn. by rewrite Ec. }
  done.
Qed.

Lemma updateTask_cases uid id b e st :
  updateTask uid id b e st =
  match (validationResult validateTaskUpdate b).1 with
  | _ :: _ => (respond 400 (BErrors (validationResult validateTaskUpdate b).1), st)
  | [] =>
      match cast_update (validationResult validateTaskUpdate b).2, db_error e with
      | Some d, None =>
          match findOne id uid (tasks st) with
          | None => (not_found, st)
          | Some x =>
              match apply_update d (now e) x with
              | None => (internal_error, st)
              | Some task =>
                  (respond 200 (BTask task),
                   set_cache (NodeCache.del (cacheKey uid) (cache st))
                     (set_tasks (replace_first (owned_by id uid) task (tasks st)) st))
              end
          end
      | _, _ => (internal_error, st)
      end
  end.
Proof.
  unfold updateTask.
  by destruct (validationResult validateTaskUpdate b) as [[|err errs] b'].
Qed.

(** ** Writes followed by reads *)

Lemma find_all_false {A} (p : A → bool) (l : list A) :
  (∀ x, x ∈ l → p x = false) → List.find p l = None.
Proof.
  induction l as [|y l IH]; [done|]. intros H. cbn.
  rewrite (H y) by by left. apply IH. intros x Hx. apply H. by right.
Qed.

Lemma find_app_last {A} (p : A → bool) (l : list A) y :
  (∀ x, x ∈ l → p x = false) → p y = true → List.find p (l ++ [y]) = Some y.
Proof.
  induction l as [|z l IH]; intros H Hy; cbn.
  - by rewrite Hy.
  - rewrite (H z) by by left. apply IH; [|done]. intros x Hx. apply H. by right.
Qed.

(** The first match replaced by a document that still matches is what
    the query finds next. *)
Lemma find_replace_first_same (p : Task → bool) (l : list Task) x y :
  List.find p l = Some x → p y = true → List.find p (replace_first p y l) = Some y.
Proof.
  induction l as [|z l IH]; [done|]. cbn.
  destruct (p z) eqn:Hz; intros Hf Hy; cbn.
  - by rewrite Hy.
  - rewrite Hz. by apply IH.
Qed.

(** With unique ids, after the first match of an id is replaced by a
    document of the same id, a query by that id sees this document
    only. *)
Lemma find_replace_first_id (l : list Task) id uid w x y :
  NoDup (_id <$> l) → findOne id uid l = Some x → _id y = id →
  findOne id w (replace_first (owned_by id uid) y l)
  = if bool_decide (userId y = Some w) then Some y else None.
Proof.
  unfold findOne. intros Hnd Hf Hy.
  induction l as [|z l IH]; [done|].
  rewrite fmap_cons, NoDup_cons in Hnd. destruct Hnd as [Hz Hnd].
  cbn [List.find replace_first] in *. destruct (owned_by id uid z) eqn:Ez.
  - injection Hf as ->. apply owned_by_true in Ez as [Hid _].
    cbn [List.find]. unfold owned_by at 1.
    rewrite (bool_decide_eq_true_2 _ Hy). cbn [andb].
    case_bool_decide; [done|].
    apply find_all_false. intros t Ht. apply not_true_iff_false.
    intros [Hidt _]%owned_by_true. destruct Hz. rewrite Hid, <- Hidt.
    by apply list_elem_of_fmap_2.
  - cbn [List.find].
    assert (owned_by id w z = false) as ->.
    { apply not_true_iff_false. intros [Hidz _]%owned_by_true.
      apply List.find_some in Hf as [Hin [Hidx _]%owned_by_true].
      destruct Hz. rewrite Hidz, <- Hidx.
      apply list_elem_of_fmap_2. by apply list_elem_of_In. }
    by apply IH.
Qed.

(** X9. A task that POST /tasks has created is what GET /tasks/:id
    returns to its owner under the id of the response. *)
Theorem create_then_get uid b e st task e' :
  (createTask uid b e st).1 = respond 201 (BTask task) →
  db_error e' = None →
  getTask uid (_id task) e' (createTask uid b e st).2
  = (respond 200 (BMessageTask "Task retrieved successfully!" task),
     (createTask uid b e st).2).
Proof.
  rewrite createTask_cases. intros H He'.
  destruct (validationResult validateTaskCreate b).1; [|done].
  destruct (b !! "title") as [[| | |s]|]; try done.
  destruct (db_error e); [done|].
  case_bool_decide as Hfresh; [done|].
  cbn in H. injection H as <-. unfold getTask. rewrite He'. cbn [snd tasks set_cache set_tasks].
  unfold findOne. rewrite (find_app_last _ _ (new_task uid s (b !! "complete") e)); [done| |].
  - intros x Hx. apply not_true_iff_false. intros [Hid _]%owned_by_true.
    destruct Hfresh. cbn in Hid. rewrite <- Hid. by apply list_elem_of_fmap_2.
  - by apply owned_by_true.
Qed.

Lemma updateTask_200 uid id b e st task :
  (updateTask uid id b e st).1 = respond 200 (BTask task) →
  ∃ x, findOne id uid (tasks st) = Some x ∧ _id task = id ∧
       tasks (updateTask uid id b e st).2
         = replace_first (owned_by id uid) task (tasks st).
Proof.
  rewrite updateTask_cases.
  destruct (validationResult validateTaskUpdate b).1; [|done].
  destruct (cast_update _) as [d|]; [|done].
  destruct (db_error e); [done|].
  destruct (findOne id uid (tasks st)) as [x|] eqn:Ef; [|done].
  destruct (apply_update d (now e) x) as [y|] eqn:Ea; [|done].
  cbn. intros [= ->]. exists x. split; [done|]. split; [|done].
  unfold apply_update in Ea. case_match; [|done]. injection Ea as <-. cbn.
  by apply findOne_Some in Ef as (_ & ? & _).
Qed.

(** X10. After PUT /tasks/:id has succeeded, GET /tasks/:id returns the
    updated task to the caller if the caller still owns it. If the
    update has given the task to another user, then, ids being unique,
    the caller gets NotFound and the other user gets the task. *)
Theorem update_then_get uid id b e st task e' :
  (updateTask uid id b e st).1 = respond 200 (BTask task) →
  db_error e' = None →
  (userId task = Some uid →
     (getTask uid id e' (updateTask uid id b e st).2).1
     = respond 200 (BMessageTask "Task retrieved successfully!" task)) ∧
  (ids_unique st → ∀ w, userId task = Some w → w ≠ uid →
     (getTask uid id e' (updateTask uid id b e st).2).1 = not_found_get ∧
     (getTask w id e' (updateTask uid id b e st).2).1
     = respond 200 (BMessageTask "Task retrieved successfully!" task)).
Proof.
  intros (x & Hf & Hid & Ht)%updateTask_200 He'.
  unfold getTask. rewrite He', Ht. split.
  - intros Hu. unfold findOne in *.
    rewrite (find_replace_first_same _ _ x task Hf); [done|].
    by apply owned_by_true.
  - intros Hnd w Hw Hne.
    rewrite !(find_replace_first_id _ id uid _ x task Hnd Hf Hid).
    rewrite bool_decide_eq_false_2, bool_decide_eq_true_2 by congruence. done.
Qed.

(** X11. An update whose body has no key that names a path of the
    task schema ([_id], [title], [complete], [userId], [createdAt],
    [updatedAt], [__v]) or a part of one, and no update operator, the
    empty body included, passes the validation and, on a task of the
    caller, is answered 200 with the task as it was but for
    [updatedAt]; the caller's cache entry is dropped all the same. *)
Theorem update_touch uid id b e st x :
  (∀ k, is_Some (b !! k) → is_operator k = false ∧ names_path k = false) →
  findOne id uid (tasks st) = Some x → db_error e = None →
  updateTask uid id b e st
  = (respond 200 (BTask (touch (now e) x)),
     set_cache (NodeCache.del (cacheKey uid) (cache st))
       (set_tasks (replace_first (owned_by id uid) (touch (now e) x) (tasks st)) st)).
Proof.
  intros Hb Hf He.
  assert (∀ k, names_path k = true → b !! k = None) as Hn.
  { intros k Hk. destruct (b !! k) eqn:E; [|done].
    destruct (Hb k) as [_ ?]; [by rewrite E|congruence]. }
  pose proof (Hn "title" eq_refl) as Ht. pose proof (Hn "complete" eq_refl) as Hc.
  pose proof (Hn "userId" eq_refl) as Hu. pose proof (Hn "_id" eq_refl) as Hi.
  pose proof (validateTaskUpdate_spec b) as (Hnil & _). cbn zeta in *.
  rewrite Ht, Hc in Hnil. destruct Hnil as [_ Hnil]. specialize (Hnil (conj eq_refl eq_refl)).
  rewrite updateTask_cases, Hnil, (cast_update_validated b Hnil), Ht, Hc, Hu, Hi, He, Hf.
  done.
Qed.

(** X12. PUT /tasks/:id validates before it looks the task up: a body
    whose [title] is present and not a string of at least 3 characters
    once trimmed, or whose [complete] is present and not boolean-like,
    is answered 400 with exactly the fields at fault, whether or not
    the task exists or the store works, and changes nothing; any other
    body is never answered 400. *)
Theorem update_validation_first uid id b e st :
  (valid_title_update (b !! "title") && valid_complete (b !! "complete") = false →
     status (updateTask uid id b e st).1 = 400 ∧
     (updateTask uid id b e st).2 = st ∧
     ∀ k, k ∈ error_paths (updateTask uid id b e st).1 ↔
          (k = "title" ∧ valid_title_update (b !! "title") = false) ∨
          (k = "complete" ∧ valid_complete (b !! "complete") = false))
  ∧
  (valid_title_update (b !! "title") && valid_complete (b !! "complete") = true →
     status (updateTask uid id b e st).1 ≠ 400).
Proof.
  pose proof (validateTaskUpdate_spec b) as (Hnil & Hpaths & _). cbn zeta in *.
  rewrite updateTask_cases. split.
  - intros Hbad.
    destruct (validationResult validateTaskUpdate b).1 as [|err errs] eqn:E.
    + destruct Hnil as [Hnil _]. destruct (Hnil eq_refl) as [Ht Hc].
      by rewrite Ht, Hc in Hbad.
    + done.
  - intros [Ht Hc]%andb_true_iff.
    destruct Hnil as [_ Hnil]. rewrite (Hnil (conj Ht Hc)).
    repeat case_match; done.
Qed.

(** X13. Deleting twice: once DELETE /tasks/:id has succeeded in a
    store with unique ids, the same request again is answered NotFound
    and changes nothing, and GET /tasks/:id is answered NotFound too. *)
Theorem delete_twice uid id e st e' :
  ids_unique st →
  (deleteTask uid id e st).1 = respond 200 (BMessage "Task deleted") →
  db_error e' = None →
  deleteTask uid id e' (deleteTask uid id e st).2 = (not_found, (deleteTask uid id e st).2) ∧
  getTask uid id e' (deleteTask uid id e st).2 = (not_found_get, (deleteTask uid id e st).2).
Proof.
  intros Hnd H He'.
  assert (∃ x, findOne id uid (tasks st) = Some x ∧
               tasks (deleteTask uid id e st).2 = remove_first (owned_by id uid) (tasks st))
    as (x & Hf & Ht).
  { revert H. unfold deleteTask. destruct (db_error e); [done|].
    destruct (findOne id uid (tasks st)) as [x|]; [|done]. eauto. }
  assert (findOne id uid (tasks (deleteTask uid id e st).2) = None) as Hnone.
  { rewrite Ht. apply find_all_false. intros z Hz.
    apply not_true_iff_false. intros [Hid _]%owned_by_true.
    apply (remove_first_no_id _ _ x z Hnd Hf Hz).
    apply findOne_Some in Hf as (_ & -> & _). done. }
  unfold deleteTask at 1, getTask. by rewrite He', Hnone.
Qed.

(** X20. In every state that the server can reach, every stored title
    is trimmed and has at least 3 characters: neither an update nor a
    create stores a title that the validation would refuse. *)
Theorem reachable_titles st :
  reachable st →
  ∀ x, x ∈ tasks st →
    JS.trim (title x) = title x ∧ (3 ≤ String.length (title x))%nat.
Proof.
  apply (reachable_tasks_ind (λ l, ∀ x, x ∈ l →
    JS.trim (title x) = title x ∧ (3 ≤ String.length (title x))%nat)).
  { by intros x ?%elem_of_nil. }
  intros uid op e st0 Hall. destruct op as [|b|id|id b|id]; cbn [run_op].
  - unfold listTasks. handler_cases; done.
  - pose proof (validateTaskCreate_spec b) as (Hnil & _). cbn zeta in *.
    rewrite createTask_cases.
    destruct (validationResult validateTaskCreate b).1; [|done].
    destruct Hnil as [Hnil _]. destruct (Hnil eq_refl) as [Hvt _].
    destruct (b !! "title") as [[| | |s]|]; try done.
    destruct (db_error e); [done|]. case_bool_decide; [done|].
    cbn [snd tasks set_cache set_tasks].
    intros x [Hx | ->%list_elem_of_singleton]%elem_of_app; [by apply Hall|].
    cbn [title new_task]. split; [apply trim_idem|].
    unfold valid_title in Hvt. by apply Nat.leb_le.
  - unfold getTask. handler_cases; done.
  - pose proof (validateTaskUpdate_spec b) as (Hnil & _). cbn zeta in *.
    rewrite updateTask_cases.
    destruct (validationResult validateTaskUpdate b).1 eqn:Ev; [|done].
    rewrite (cast_update_validated b Ev).
    destruct Hnil as [Hnil _]. destruct (Hnil eq_refl) as [Hvt _].
    destruct (cast_key castObjectId (b !! "userId")) as [u|]; [|done].
    destruct (cast_key castObjectId (b !! "_id")) as [i|]; [|done].
    cbn [mbind option_bind]. destruct (db_error e); [done|].
    destruct (findOne id uid (tasks st0)) as [x0|] eqn:Ef; [|done].
    destruct (apply_update _ (now e) x0) as [y|] eqn:Ea; [|done].
    cbn [snd tasks set_cache set_tasks]. intros x Hx.
    assert (x = y ∨ x ∈ tasks st0) as Hor.
    { clear -Hx. induction (tasks st0) as [|z l IH]; [by apply elem_of_nil in Hx|].
      cbn in Hx. destruct (owned_by id uid z);
        apply elem_of_cons in Hx as [->|Hx]; auto.
      - right. by right.
      - right. by left.
      - destruct (IH Hx); auto. right. by right. }
    destruct Hor as [->|Hin]; [|by apply Hall].
    unfold apply_update in Ea. case_match; [|done]. injection Ea as <-. cbn.
    apply findOne_Some in Ef as (Hin0 & _).
    destruct (b !! "title") as [[| | |s]|]; try done; cbn; try by apply Hall.
    split; [apply trim_idem|]. unfold valid_title_update, valid_title in Hvt.
    by apply Nat.leb_le.
  - unfold deleteTask. handler_cases; try done. cbn [snd tasks set_cache set_tasks].
    intros x Hx. apply Hall. eapply elem_of_sublist; [done|apply remove_first_sublist].
Qed.

(** ** GET /tasks *)

Lemma insert_desc_sorted x l :
  StronglySorted newer_first l → StronglySorted newer_first (insert_desc x l).
Proof.
  induction 1 as [|y l Hl IH Hy]; cbn.
  - repeat constructor.
  - destruct (Z.leb_spec (createdAt y) (createdAt x)).
    + constructor; [by constructor|]. constructor; [done|].
      eapply Forall_impl; [exact Hy|]. unfold newer_first. intros z Hz. cbn in Hz. lia.
    + constructor; [done|]. rewrite insert_desc_perm.
      constructor; [unfold newer_first; lia|done].
Qed.

Lemma sort_desc_sorted l : StronglySorted newer_first (sort_desc l).
Proof.
  induction l as [|x l IH]; [constructor|]. by apply insert_desc_sorted.
Qed.

(** X14. When the cache has nothing to serve and the store works,
    GET /tasks answers with exactly the tasks of the store that the
    caller owns, each once, newest first. *)
Theorem list_from_store uid e st :
  (NodeCache.get (cacheKey uid) (now e) (cache st)).1 = None →
  db_error e = None →
  ∃ l, (listTasks uid e st).1 = respond 200 (BTasks l) ∧
       l ≡ₚ List.filter (of_user uid) (tasks st) ∧
       StronglySorted newer_first l ∧
       ∀ x, x ∈ l ↔ x ∈ tasks st ∧ userId x = Some uid.
Proof.
  intros Hg He. unfold listTasks.
  destruct (NodeCache.get (cacheKey uid) (now e) (cache st)) as [cached c1].
  cbn in Hg. subst cached. rewrite He.
  exists (find_tasks uid (tasks st)). split; [done|]. split; [apply sort_desc_perm|].
  split; [apply sort_desc_sorted|]. intros x. apply elem_of_find_tasks.
Qed.


(** X16. The handlers touch the cache under the key of the caller only:
    whatever an owner asks, the cache entry of every other owner stays
    as it is. *)
Theorem cache_isolation A B op e st :
  A ≠ B →
  cache (run_op B op e st).2 !! cacheKey A = cache st !! cacheKey A.
Proof.
  intros Hne.
  assert (cacheKey B ≠ cacheKey A) as Hk by (by intros ?%cacheKey_inj).
  destruct op as [|b|id|id b|id]; cbn [run_op].
  - unfold listTasks.
    destruct (NodeCache.get (cacheKey B) (now e) (cache st)) as [[hit|] c1] eqn:Eg.
    + by apply get_Some in Eg as [-> _].
    + apply get_None in Eg as ->. destruct (db_error e); cbn.
      * by rewrite lookup_delete_ne.
      * unfold NodeCache.set. by rewrite lookup_insert_ne, lookup_delete_ne.
  - pose proof (write_effect B (CreateTask b) e st eq_refl) as H. cbn [run_op] in H.
    destruct (succeeded _); rewrite H; [|done].
    unfold NodeCache.del. by rewrite lookup_delete_ne.
  - unfold getTask. handler_cases; done.
  - pose proof (write_effect B (UpdateTask id b) e st eq_refl) as H. cbn [run_op] in H.
    destruct (succeeded _); rewrite H; [|done].
    unfold NodeCache.del. by rewrite lookup_delete_ne.
  - pose proof (write_effect B (DeleteTask id) e st eq_refl) as H. cbn [run_op] in H.
    destruct (succeeded _); rewrite H; [|done].
    unfold NodeCache.del. by rewrite lookup_delete_ne.
Qed.

(** ** Requests that fail *)

Lemma run_op_failed uid op e st :
  succeeded (run_op uid op e st).1 = false →
  users (run_op uid op e st).2 = users st ∧ tasks (run_op uid op e st).2 = tasks st.
Proof.
  destruct op as [|b|id|id b|id]; cbn [run_op].
  - unfold listTasks. handler_cases; done.
  - unfold createTask. handler_cases; done.
  - unfold getTask. handler_cases; done.
  - unfold updateTask. handler_cases; done.
  - unfold deleteTask. handler_cases; done.
Qed.

Lemma run_op_not_401 uid op e st : status (run_op uid op e st).1 ≠ 401.
Proof.
  destruct op as [|b|id|id b|id]; cbn [run_op].
  - unfold listTasks. handler_cases; done.
  - unfold createTask. handler_cases; done.
  - unfold getTask. handler_cases; done.
  - unfold updateTask. handler_cases; done.
  - unfold deleteTask. handler_cases; done.
Qed.

Lemma signup_failed b e st :
  succeeded (signup b e st).1 = false → (signup b e st).2 = st.
Proof. unfold signup. handler_cases; done. Qed.

(** X17. A request that is not answered 200 or 201 writes nothing to
    the two collections, whatever the route; and a request answered 401
    changes nothing at all, the cache included. *)
Theorem failed_request_keeps_store r e st :
  (succeeded (app r e st).1 = false →
     users (app r e st).2 = users st ∧ tasks (app r e st).2 = tasks st) ∧
  (status (app r e st).1 = 401 → (app r e st).2 = st).
Proof.
  destruct r as [b|b|a|a b|a id|a id b|a id]; cbn [app].
  - split.
    + by intros ->%signup_failed.
    + intros H. apply signup_failed. unfold succeeded. by rewrite H.
  - rewrite login_state. by split.
  - destruct (protected_cases a listTasks e st) as [->|(uid & _ & ->)]; [by split|].
    split; [apply (run_op_failed uid ListTasks)|].
    by intros ?%(run_op_not_401 uid ListTasks).
  - destruct (protected_cases a (λ uid, createTask uid b) e st)
      as [->|(uid & _ & ->)]; [by split|].
    split; [apply (run_op_failed uid (CreateTask b))|].
    by intros ?%(run_op_not_401 uid (CreateTask b)).
  - destruct (protected_cases a (λ uid, getTask uid id) e st)
      as [->|(uid & _ & ->)]; [by split|].
    split; [apply (run_op_failed uid (GetTask id))|].
    by intros ?%(run_op_not_401 uid (GetTask id)).
  - destruct (protected_cases a (λ uid, updateTask uid id b) e st)
      as [->|(uid & _ & ->)]; [by split|].
    split; [apply (run_op_failed uid (UpdateTask id b))|].
    by intros ?%(run_op_not_401 uid (UpdateTask id b)).
  - destruct (protected_cases a (λ uid, deleteTask uid id) e st)
      as [->|(uid & _ & ->)]; [by split|].
    split; [apply (run_op_failed uid (DeleteTask id))|].
    by intros ?%(run_op_not_401 uid (DeleteTask id)).
Qed.

(** ** What the validation and POST /tasks look at *)

(** X19. The validation reads and rewrites only the fields that have a
    chain: every other key of the body reaches the handler as it was
    sent. *)
Theorem validation_keeps_other_keys chains b k :
  k ∉ fields chains → (validationResult chains b).2 !! k = b !! k.
Proof.
  revert b. induction chains as [|[field items] rest IH]; intros b Hk; [done|].
  unfold fields in Hk. rewrite fmap_cons, not_elem_of_cons in Hk.
  destruct Hk as [Hne Hk]. cbn [validationResult].
  pose proof (run_chain_lookup_ne field items b k Hne) as H1.
  destruct (run_chain (field, items) b) as [e1 b1].
  pose proof (IH b1 Hk) as H2.
  destruct (validationResult rest b1) as [e2 b2]. cbn [fst snd] in *. congruence.
Qed.

Lemma validateTaskCreate_errors b :
  (validationResult validateTaskCreate b).1 =
  (run_items "title" [isString; notEmpty; trim; isLength 3 None] (b !! "title")).1 ++
  match b !! "complete" with
  | None => []
  | Some v => (run_items "complete" [optional; isBoolean] (Some v)).1
  end.
Proof.
  unfold validateTaskCreate. rewrite validationResult_two.
  rewrite !run_chain_errors, run_chain_lookup_ne by done.
  cbn [is_optional existsb orb andb]. f_equal.
  destruct (b !! "complete"); [|done]. by rewrite bool_decide_eq_false_2.
Qed.

(** X18. POST /tasks looks at [title] and [complete] and at nothing
    else of the body: two bodies that agree on these two fields get the
    same answer and leave the same state, so that no field of the body
    can set the owner, the id or the dates of the new task. *)
Theorem create_ignores_other_fields uid b b' e st :
  b !! "title" = b' !! "title" → b !! "complete" = b' !! "complete" →
  createTask uid b e st = createTask uid b' e st.
Proof.
  intros Ht Hc.
  by rewrite !createTask_cases, !validateTaskCreate_errors, Ht, Hc.
Qed.

(** X21. The GET routes write nothing to the collections, with or
    without a valid token; GET /tasks/:id changes nothing at all, and
    GET /tasks changes at most the cache. *)
Theorem get_routes_read_only a id e st :
  users (app (GET_tasks a) e st).2 = users st ∧
  tasks (app (GET_tasks a) e st).2 = tasks st ∧
  (app (GET_tasks_id a id) e st).2 = st.
Proof.
  cbn [app].
  destruct (protected_cases a listTasks e st) as [->|(uid & _ & ->)];
    destruct (protected_cases a (λ uid, getTask uid id) e st) as [->|(uid' & _ & ->)];
    repeat split; try done;
    try (unfold listTasks; handler_cases; done);
    try (unfold getTask; handler_cases; done).
Qed.

(** ** The handlers between their awaits *)




Lemma elem_of_insert_inv {A} (l : list A) i p x :
  x ∈ <[i := p]> l → x = p ∨ x ∈ l.
Proof.
  revert i. induction l as [|y l IH]; intros [|i]; cbn; try (by right).
  - rewrite !elem_of_cons. intros [->|?]; auto.
  - rewrite !elem_of_cons. intros [->|H]; [auto|]. apply IH in H as [->|?]; auto.
Qed.

Lemma elem_of_delete_inv {A} (l : list A) i x : x ∈ delete i l → x ∈ l.
Proof.
  revert i. induction l as [|y l IH]; intros [|i]; cbn; try done.
  - by right.
  - rewrite !elem_of_cons. intros [->|H]; [auto|]. right. by eapply IH.
Qed.


Lemma astep_Begin uid op e σ :
  astep (Begin uid op e) σ
  = ((begin uid op e σ).1, (λ x, (uid, x)) <$> (begin uid op e σ).2).
Proof. cbn [astep]. by destruct (begin uid op e σ). Qed.

Lemma begin_tasks uid op e σ :
  tasks (current (begin uid op e σ).1) = tasks (current σ).
Proof. destruct op; cbn [begin]; unfold suspend, with_state; repeat case_match; done. Qed.

Lemma begin_cache uid op e σ u ent :
  cache (current (begin uid op e σ).1) !! cacheKey u = Some ent →
  cache (current σ) !! cacheKey u = Some ent.
Proof.
  destruct op; cbn [begin]; unfold suspend, with_state.
  - destruct (NodeCache.get _ _ _) as [[l|] c1] eqn:E; cbn.
    + by apply get_Some in E as [-> _].
    + apply get_None in E as ->. by intros [_ H]%lookup_delete_Some.
  - repeat case_match; done.
  - done.
  - repeat case_match; done.
  - done.
Qed.

Lemma begin_found uid op e σ u l :
  PFound u (Some l) ∈ inflight (begin uid op e σ).1 → PFound u (Some l) ∈ inflight σ.
Proof.
  destruct op; cbn [begin]; unfold suspend, with_state; repeat case_match;
    cbn [fst inflight]; try done;
    rewrite elem_of_app, list_elem_of_singleton; by intros [?|?].
Qed.


Lemma exec_cache i err σ : cache (current (exec i err σ)) = cache (current σ).
Proof. unfold exec, settle. repeat case_match; done. Qed.

Lemma exec_found i err σ u l :
  PFound u (Some l) ∈ inflight (exec i err σ) →
  PFound u (Some l) ∈ inflight σ ∨
  (inflight σ !! i = Some (PFind u) ∧ l = find_tasks u (tasks (current σ))).
Proof.
  unfold exec, settle. destruct (inflight σ !! i) as [p|] eqn:Ei; [|auto].
  destruct p; try (by auto); repeat case_match; cbn [inflight];
    intros [E|?]%elem_of_insert_inv; auto; try discriminate.
  injection E as -> ->. auto.
Qed.

Lemma resume_tasks i now σ : tasks (current (resume i now σ).1) = tasks (current σ).
Proof. unfold resume, finish. repeat case_match; done. Qed.

Lemma resume_found i now σ u l :
  PFound u (Some l) ∈ inflight (resume i now σ).1 → PFound u (Some l) ∈ inflight σ.
Proof.
  unfold resume, finish. repeat case_match; cbn [fst inflight]; try done;
    apply elem_of_delete_inv.
Qed.

Lemma resume_cache i now σ u ent :
  cache (current (resume i now σ).1) !! cacheKey u = Some ent →
  cache (current σ) !! cacheKey u = Some ent ∨
  ∃ l, inflight σ !! i = Some (PFound u (Some l)) ∧ ent = NodeCache.wrap stdTTL now l.
Proof.
  unfold resume, finish. destruct (inflight σ !! i) as [p|] eqn:Ei; [|auto].
  destruct p as [uid|uid [l|]|uid task|uid [task|]|uid id|uid [m|[task|]]
                |uid id d now'|uid [[task|]|]|uid id|uid [[task|]|]];
    cbn [fst current cache set_cache]; try (by auto);
    try (unfold NodeCache.del; intros [_ H]%lookup_delete_Some; by auto).
  unfold NodeCache.set. destruct (decide (u = uid)) as [->|Hne].
  - rewrite lookup_insert_eq. intros [= <-]. right. eauto.
  - rewrite lookup_insert_ne; [auto|]. by intros ?%cacheKey_inj.
Qed.


(** Where a cache entry, a list in hand and a list in an answer come
    from. *)
Lemma astep_cache ev σ u ent :
  cache (current (astep ev σ).1) !! cacheKey u = Some ent →
  cache (current σ) !! cacheKey u = Some ent ∨
  ∃ l, PFound u (Some l) ∈ inflight σ ∧ NodeCache.v ent = l.
Proof.
  destruct ev as [uid op e|i err|i now|l].
  - rewrite astep_Begin. cbn [fst]. intros ?%begin_cache. auto.
  - cbn [astep fst]. rewrite exec_cache. auto.
  - cbn [astep]. intros [?|(l & Hl & ->)]%resume_cache; [auto|].
    right. exists l. split; [by eapply list_elem_of_lookup_2|done].
  - cbn. auto.
Qed.

Lemma astep_found ev σ u l :
  PFound u (Some l) ∈ inflight (astep ev σ).1 →
  PFound u (Some l) ∈ inflight σ ∨ l = find_tasks u (tasks (current σ)).
Proof.
  destruct ev as [uid op e|i err|i now|l'].
  - rewrite astep_Begin. cbn [fst]. intros ?%begin_found. auto.
  - cbn [astep fst]. intros [?| [_ ->]]%exec_found; auto.
  - cbn [astep]. intros ?%resume_found. auto.
  - cbn. auto.
Qed.


(** The ids of the collection stay unique. *)
Lemma apply_update_id d now x task : apply_update d now x = Some task → _id task = _id x.
Proof. unfold apply_update. case_match; [|done]. by intros [= <-]. Qed.

Lemma exec_ids i err σ :
  NoDup (_id <$> tasks (current σ)) → NoDup (_id <$> tasks (current (exec i err σ))).
Proof.
  intros Hnd. unfold exec, settle.
  destruct (inflight σ !! i) as [[uid|uid r|uid task|uid r|uid id|uid r
                |uid id d now'|uid r|uid id|uid r]|]; try done.
  - destruct err; [done|]. case_bool_decide as Hid; [done|]. cbn.
    rewrite fmap_app. apply NoDup_app. split; [done|]. split; [|apply NoDup_singleton].
    by intros x Hx ->%list_elem_of_singleton.
  - destruct err; [done|]. destruct (findOne id uid _) as [x|] eqn:Ef; [|done].
    destruct (apply_update d now' x) as [task|] eqn:Ea; [|done]. cbn.
    rewrite replace_first_ids; [done|].
    intros y _ [Hy _]%owned_by_true.
    apply findOne_Some in Ef as (_ & Hid & _). apply apply_update_id in Ea. congruence.
  - destruct err; [done|]. destruct (findOne id uid _) as [x|]; [|done]. cbn.
    by apply remove_first_ids.
Qed.

Lemma astep_ids ev σ :
  NoDup (_id <$> tasks (current σ)) → NoDup (_id <$> tasks (current (astep ev σ).1)).
Proof.
  destruct ev as [uid op e|i err|i now|l].
  - rewrite astep_Begin. cbn [fst]. by rewrite begin_tasks.
  - apply exec_ids.
  - cbn [astep]. by rewrite resume_tasks.
  - done.
Qed.

Lemma areach_ids σ : areach σ → NoDup (_id <$> tasks (current σ)).
Proof. induction 1; [constructor|by apply astep_ids]. Qed.

Lemma astep_tagged ev σ : lists_tagged σ → lists_tagged (astep ev σ).1.
Proof.
  intros [Hc Hf]. split.
  - intros u ent x [?|(l & Hl & <-)]%astep_cache Hx; eauto.
  - intros u l x [?| ->]%astep_found Hx; [eauto|].
    by apply elem_of_find_tasks in Hx as [_ ?].
Qed.

Lemma areach_tagged σ : areach σ → lists_tagged σ.
Proof.
  induction 1; [|by apply astep_tagged]. split.
  - intros u ent x. cbn. by rewrite lookup_empty.
  - intros u l x. cbn. by intros ?%elem_of_nil.
Qed.

Lemma areach_arun evs σ : areach σ → areach (arun evs σ).1.
Proof.
  revert σ. induction evs as [|ev evs IH]; intros σ H; [done|]. cbn [arun].
  pose proof (areach_step σ ev H) as H1. apply IH in H1.
  destruct (astep ev σ) as [σ1 r]. cbn [fst] in H1.
  by destruct (arun evs σ1).
Qed.




(** ** Requests that overlap *)





(** X22. In every state of the process, requests overlapping or not,
    no two tasks share an id, and every list that is cached under a
    user's key, or that a suspended list request of a user holds, is
    made of documents whose [userId] is that user. *)
Theorem reachable_store_cache σ :
  areach σ →
  NoDup (_id <$> tasks (current σ)) ∧
  (∀ owner ent x,
     cache (current σ) !! cacheKey owner = Some ent → x ∈ NodeCache.v ent →
     userId x = Some owner) ∧
  (∀ owner l x, PFound owner (Some l) ∈ inflight σ → x ∈ l → userId x = Some owner).
Proof.
  intros H. split; [by apply areach_ids|]. by apply areach_tagged.
Qed.

End App.

(** ** The plain instance meets what the section assumes *)

Lemma plain_unbits_bits p : Plain.unbits (Plain.bits p) = Some p.
Proof. induction p as [q IH|q IH|]; cbn; rewrite ?IH; done. Qed.

Lemma plain_decode_sign p k : Plain.jws_decode (Plain.jws_sign p k) = Some p.
Proof.
  unfold Plain.jws_decode, Plain.jws_sign, Plain.unwire.
  rewrite plain_unbits_bits. cbn. rewrite decode_encode. by destruct p.
Qed.

Lemma plain_verify_sign p k : Plain.jws_verify (Plain.jws_sign p k) k = true.
Proof.
  unfold Plain.jws_verify, Plain.jws_sign, Plain.unwire.
  rewrite plain_unbits_bits. cbn. rewrite decode_encode. apply String.eqb_refl.
Qed.

Lemma plain_bcrypt_empty pw s :
  pw ≠ "" → Plain.bcrypt_compare "" (Plain.bcrypt_hash pw s) = false.
Proof. by destruct pw. Qed.

(** ** The properties at work on sample requests *)



Lemma token_roundtrip_witness :
  (∀ p k, Plain.jws_decode (Plain.jws_sign p k) = Some p) ∧
  (∀ p k, Plain.jws_verify (Plain.jws_sign p k) k = true) ∧
  1700003599999 / 1000 < 1700000000000 / 1000 + 3600 ∧
  jwt_verify Plain.jws_decode Plain.jws_verify
    (jwt_sign Plain.jws_sign Sample.alice "change-me-in-env" 1700000000000)
    "change-me-in-env" 1700003599999
  = inl {| p_id := Sample.alice; iat := 1700000000; exp := 1700003600 |}.
Proof.
  split; [exact plain_decode_sign|]. split; [exact plain_verify_sign|].
  assert (1700003599999 / 1000 < 1700000000000 / 1000 + 3600) as Hlt
    by (vm_compute; reflexivity).
  split; [exact Hlt|].
  destruct (token_roundtrip_and_failure Plain.jws_sign Plain.jws_decode
              Plain.jws_verify plain_decode_sign plain_verify_sign) as [Hissue _].
  exact (proj2 (Hissue Sample.alice "change-me-in-env" 1700000000000 1700003599999) Hlt).
Defined.

Lemma auth_gate_witness :
  JS.startsWith "Bearer " "bearer abc" = false ∧
  protected Plain.jws_decode Plain.jws_verify None (Some "bearer abc")
    listTasks Sample.e0 Sample.st1 = (missing_token, Sample.st1) ∧
  "garbage" ≠ "" ∧
  jwt_verify Plain.jws_decode Plain.jws_verify "garbage" (JWT_SECRET None)
    (now Sample.e0) = inr (JsonWebTokenError "invalid token") ∧
  protected Plain.jws_decode Plain.jws_verify None (Some "Bearer garbage")
    listTasks Sample.e0 Sample.st1 = (invalid_token, Sample.st1).
Proof.
  assert (JS.startsWith "Bearer " "bearer abc" = false) as Hp by reflexivity.
  assert ("garbage" ≠ "") as Hne by discriminate.
  assert (jwt_verify Plain.jws_decode Plain.jws_verify "garbage" (JWT_SECRET None)
            (now Sample.e0) = inr (JsonWebTokenError "invalid token")) as Hv
    by (vm_compute; reflexivity).
  split; [exact Hp|]. split.
  - destruct (auth_gate Plain.jws_decode Plain.jws_verify None (Some "bearer abc")
                listTasks Sample.e0 Sample.st1) as (_ & _ & Hmissing & _).
    apply Hmissing. right. exists "bearer abc". split; [reflexivity|exact Hp].
  - split; [exact Hne|]. split; [exact Hv|].
    destruct (auth_gate Plain.jws_decode Plain.jws_verify None (Some "Bearer garbage")
                listTasks Sample.e0 Sample.st1) as (_ & _ & _ & Htoken).
    exact (proj2 (proj1 (Htoken "garbage" eq_refl Hne) _ Hv)).
Defined.

Lemma login_noninterference_witness :
  let b : body_t := {[ "username" := JStr "alice"; "password" := JStr "pw123456" ]} in
  let b2 : body_t := {[ "username" := JStr " alice "; "password" := JStr "pw123456" ]} in
  let st := (app Plain.jws_sign Plain.jws_decode Plain.jws_verify
               Plain.bcrypt_hash Plain.bcrypt_compare None
               (POST_signup b) Sample.e0 init).2 in
  (∀ pw s, pw ≠ "" → Plain.bcrypt_compare "" (Plain.bcrypt_hash pw s) = false) ∧
  reachable Plain.jws_sign Plain.jws_decode Plain.jws_verify
    Plain.bcrypt_hash Plain.bcrypt_compare None st ∧
  b2 !! "username" = Some (JStr " alice ") ∧
  b2 !! "password" = Some (JStr "pw123456") ∧
  db_error Sample.e600 = None ∧
  ((∃ tok, (login Plain.jws_sign Plain.bcrypt_compare None b2 Sample.e600 st).1
           = respond 200 (BToken tok)) ↔
   (∃ usr, usr ∈ users st ∧ username usr = JS.trim " alice "
           ∧ Plain.bcrypt_compare "pw123456" (password usr) = true)).
Proof.
  intros b b2 st.
  assert (reachable Plain.jws_sign Plain.jws_decode Plain.jws_verify
            Plain.bcrypt_hash Plain.bcrypt_compare None st) as Hreach.
  { apply reachable_step, reachable_init. }
  assert (b2 !! "username" = Some (JStr " alice ")) as Hu by reflexivity.
  assert (b2 !! "password" = Some (JStr "pw123456")) as Hp by reflexivity.
  split; [exact plain_bcrypt_empty|]. split; [exact Hreach|].
  split; [exact Hu|]. split; [exact Hp|]. split; [reflexivity|].
  exact (proj1 (login_noninterference Plain.jws_sign Plain.jws_decode Plain.jws_verify
                  Plain.bcrypt_hash Plain.bcrypt_compare None plain_bcrypt_empty
                  st b2 Sample.e600 " alice " "pw123456" Hreach Hu Hp eq_refl)).
Defined.

Lemma createTask_validation_witness :
  let short : body_t := {[ "title" := JStr "ab" ]} in
  let good : body_t := {[ "title" := JStr " Write report " ]} in
  valid_title (short !! "title") && valid_complete (short !! "complete") = false ∧
  status (createTask Sample.alice short Sample.e0 init).1 = 400 ∧
  (createTask Sample.alice short Sample.e0 init).2 = init ∧
  valid_title (good !! "title") && valid_complete (good !! "complete") = true ∧
  db_error Sample.e0 = None ∧
  (new_id Sample.e0 ∉ _id <$> tasks init) ∧
  ∃ s, good !! "title" = Some (JStr s) ∧
       (createTask Sample.alice good Sample.e0 init).1
         = respond 201 (BTask (new_task Sample.alice s None Sample.e0)).
Proof.
  intros short good.
  assert (valid_title (short !! "title") && valid_complete (short !! "complete") = false)
    as Hbad by reflexivity.
  assert (valid_title (good !! "title") && valid_complete (good !! "complete") = true)
    as Hgood by reflexivity.
  assert (new_id Sample.e0 ∉ _id <$> tasks init) as Hfresh
    by (intros H; inversion H).
  destruct (createTask_validation Sample.alice short Sample.e0 init) as [Hrej _].
  destruct (createTask_validation Sample.alice good Sample.e0 init) as [_ Hacc].
  destruct (Hrej Hbad) as (H400 & Hst & _).
  destruct (Hacc Hgood eq_refl Hfresh) as (s & Hs & Hres).
  split; [exact Hbad|]. split; [exact H400|]. split; [exact Hst|].
  split; [exact Hgood|]. split; [reflexivity|]. split; [exact Hfresh|].
  exists s. split; [exact Hs|]. exact (f_equal fst Hres).
Defined.

Lemma cache_ttl_witness :
  0 ≤ 1700000000000 ∧
  1700000000000 + stdTTL * 1000 < 1700000600001 ∧
  (NodeCache.get (cacheKey Sample.alice) 1700000600001
     (NodeCache.set stdTTL (cacheKey Sample.alice) [Sample.milk] 1700000000000 ∅)).1
  = None.
Proof.
  assert (0 ≤ 1700000000000) as H0 by (vm_compute; discriminate).
  assert (1700000000000 + stdTTL * 1000 < 1700000600001) as Hlt
    by (vm_compute; reflexivity).
  split; [exact H0|]. split; [exact Hlt|].
  exact (proj1 (proj2 (cache_ttl (cacheKey Sample.alice) [Sample.milk]
                         1700000000000 1700000600001 ∅ H0)) Hlt).
Defined.

Lemma failed_write_keeps_cache_witness :
  let st := (listTasks Sample.alice Sample.e0 Sample.st1).2 in
  let op := CreateTask {[ "title" := JStr "ab" ]} in
  is_write op = true ∧
  succeeded (run_op Sample.alice op Sample.e600 st).1 = false ∧
  cache (run_op Sample.alice op Sample.e600 st).2 = cache st ∧
  cache (run_op Sample.alice op Sample.e600 st).2 !! cacheKey Sample.alice
  = cache st !! cacheKey Sample.alice.
Proof.
  intros st op.
  assert (succeeded (run_op Sample.alice op Sample.e600 st).1 = false) as Hfail
    by (vm_compute; reflexivity).
  split; [reflexivity|]. split; [exact Hfail|].
  exact (proj1 (failed_write_keeps_cache Sample.alice op Sample.e600 st eq_refl) Hfail).
Defined.

(** ** Where the code departs from the claims as they were written *)



(** C6 as written fails: the store looks the name up trimmed. With a
    user alice, a login under the name " alice " is answered with a
    token, and no user of that name exists. *)
Lemma login_trims_username :
  let b : body_t := {[ "username" := JStr "alice"; "password" := JStr "pw123456" ]} in
  let b2 : body_t := {[ "username" := JStr " alice "; "password" := JStr "pw123456" ]} in
  let st := (app Plain.jws_sign Plain.jws_decode Plain.jws_verify
               Plain.bcrypt_hash Plain.bcrypt_compare None
               (POST_signup b) Sample.e0 init).2 in
  reachable Plain.jws_sign Plain.jws_decode Plain.jws_verify
    Plain.bcrypt_hash Plain.bcrypt_compare None st ∧
  (username <$> users st) = ["alice"] ∧
  (∃ tok, (login Plain.jws_sign Plain.bcrypt_compare None b2 Sample.e600 st).1
          = respond 200 (BToken tok)) ∧
  ¬ (∃ usr, usr ∈ users st ∧ username usr = " alice "
            ∧ Plain.bcrypt_compare "pw123456" (password usr) = true).
Proof.
  intros b b2 st.
  assert ((username <$> users st) = ["alice"]) as Hu by (vm_compute; reflexivity).
  split; [apply reachable_step, reachable_init|]. split; [exact Hu|]. split.
  - eexists. vm_compute. reflexivity.
  - intros (usr & Hin & Hname & _).
    apply (list_elem_of_fmap_2 username) in Hin. rewrite Hu, Hname in Hin.
    by apply list_elem_of_singleton in Hin.
Qed.

(** C7 as written fails: a [complete] field that is the string "true",
    not a boolean, passes the validation; the request is answered 201
    and the task is stored, with the flag set. *)
Lemma create_accepts_string_complete :
  let b : body_t := {[ "title" := JStr "Buy milk"; "complete" := JStr "true" ]} in
  b !! "complete" = Some (JStr "true") ∧
  (∀ x : bool, JStr "true" ≠ JBool x) ∧
  status (createTask Sample.alice b Sample.e0 init).1 = 201 ∧
  (complete <$> tasks (createTask Sample.alice b Sample.e0 init).2) = [true].
Proof. vm_compute. repeat split; done. Qed.

(** C8 as written fails: exactly 600 seconds after it was stored the
    entry is still served, and GET /tasks answers with it although the
    store holds something else by then. *)
Lemma cache_serves_at_600_seconds :
  let c := NodeCache.set stdTTL (cacheKey Sample.alice) [Sample.milk] (now Sample.e0) ∅ in
  let st := {| users := []; tasks := []; cache := c |} in
  now Sample.e600 - now Sample.e0 = 600 * 1000 ∧
  (NodeCache.get (cacheKey Sample.alice) (now Sample.e600) c).1 = Some [Sample.milk] ∧
  (listTasks Sample.alice Sample.e600 st).1 = respond 200 (BTasks [Sample.milk]) ∧
  find_tasks Sample.alice (tasks st) = [].
Proof. vm_compute. repeat split; done. Qed.

(** ** The further properties at work on sample requests *)

Lemma plain_bcrypt_correct pw s :
  Plain.bcrypt_compare pw (Plain.bcrypt_hash pw s) = true.
Proof. apply String.eqb_refl. Qed.

Lemma auth_sound_witness :
  let token := jwt_sign Plain.jws_sign Sample.alice "change-me-in-env" 1700000000000 in
  auth Plain.jws_decode Plain.jws_verify None (Some ("Bearer " +:+ token)) 1700000001000
    = Next Sample.alice ∧
  ∃ token' decoded,
    Some ("Bearer " +:+ token) = Some ("Bearer " +:+ token') ∧ token' ≠ "" ∧
    Plain.jws_decode token' = Some decoded ∧
    Plain.jws_verify token' (JWT_SECRET None) = true ∧
    1700000001000 / 1000 < exp decoded ∧ p_id decoded = Sample.alice.
Proof.
  intros token.
  assert (auth Plain.jws_decode Plain.jws_verify None (Some ("Bearer " +:+ token))
            1700000001000 = Next Sample.alice) as H by (vm_compute; reflexivity).
  split; [exact H|].
  exact (auth_sound Plain.jws_decode Plain.jws_verify None _ _ _ H).
Defined.

Lemma signup_token_authenticates_witness :
  let b : body_t := {[ "username" := JStr " alice "; "password" := JStr "pw123456" ]} in
  let token := jwt_sign Plain.jws_sign (new_id Sample.e0) "change-me-in-env" (now Sample.e0) in
  (signup Plain.jws_sign Plain.bcrypt_hash None b Sample.e0 init).1
    = respond 201 (BSignup "User created successfully" token (new_id Sample.e0)
                     "alice" (now Sample.e0)) ∧
  token ≠ "" ∧
  auth Plain.jws_decode Plain.jws_verify None (Some ("Bearer " +:+ token)) 1700003600000
    = (if bool_decide (1700003600000 / 1000 < now Sample.e0 / 1000 + 3600)
       then Next (new_id Sample.e0) else Rejected invalid_token).
Proof.
  intros b token.
  assert ((signup Plain.jws_sign Plain.bcrypt_hash None b Sample.e0 init).1
          = respond 201 (BSignup "User created successfully" token (new_id Sample.e0)
                           "alice" (now Sample.e0))) as H by (vm_compute; reflexivity).
  assert (token ≠ "") as Hne by (vm_compute; discriminate).
  split; [exact H|]. split; [exact Hne|].
  exact (proj2 (proj2 (signup_token_authenticates Plain.jws_sign Plain.jws_decode
                         Plain.jws_verify Plain.bcrypt_hash None plain_decode_sign
                         plain_verify_sign b Sample.e0 init _ _ _ _ _ 1700003600000 H Hne))).
Defined.

Lemma login_token_authenticates_witness :
  let b : body_t := {[ "username" := JStr "alice"; "password" := JStr "pw123456" ]} in
  let b2 : body_t := {[ "username" := JStr " alice "; "password" := JStr "pw123456" ]} in
  let st := (signup Plain.jws_sign Plain.bcrypt_hash None b Sample.e0 init).2 in
  let token := jwt_sign Plain.jws_sign (new_id Sample.e0) "change-me-in-env" (now Sample.e600) in
  (login Plain.jws_sign Plain.bcrypt_compare None b2 Sample.e600 st).1
    = respond 200 (BToken token) ∧
  token ≠ "" ∧
  ∃ usr name, usr ∈ users st ∧ b2 !! "username" = Some (JStr name) ∧
    username usr = JS.trim name ∧
    auth Plain.jws_decode Plain.jws_verify None (Some ("Bearer " +:+ token)) 1700000700000
    = (if bool_decide (1700000700000 / 1000 < now Sample.e600 / 1000 + 3600)
       then Next (u_id usr) else Rejected invalid_token).
Proof.
  intros b b2 st token.
  assert ((login Plain.jws_sign Plain.bcrypt_compare None b2 Sample.e600 st).1
          = respond 200 (BToken token)) as H by (vm_compute; reflexivity).
  assert (token ≠ "") as Hne by (vm_compute; discriminate).
  split; [exact H|]. split; [exact Hne|].
  exact (login_token_authenticates Plain.jws_sign Plain.jws_decode Plain.jws_verify
           Plain.bcrypt_compare None plain_decode_sign plain_verify_sign
           b2 Sample.e600 st token 1700000700000 H Hne).
Defined.

Lemma signup_validation_witness :
  let short : body_t := {[ "username" := JStr " ab "; "password" := JStr "pw123456" ]} in
  valid_username (short !! "username") && valid_password (short !! "password") = false ∧
  status (signup Plain.jws_sign Plain.bcrypt_hash None short Sample.e0 init).1 = 400 ∧
  (signup Plain.jws_sign Plain.bcrypt_hash None short Sample.e0 init).2 = init.
Proof.
  intros short.
  assert (valid_username (short !! "username") && valid_password (short !! "password")
          = false) as Hbad by reflexivity.
  destruct (signup_validation Plain.jws_sign Plain.bcrypt_hash None short Sample.e0 init)
    as [Hrej _].
  destruct (Hrej Hbad) as (H400 & Hst & _).
  split; [exact Hbad|]. split; [exact H400|exact Hst].
Defined.

Lemma signup_twice_witness :
  let b : body_t := {[ "username" := JStr "alice"; "password" := JStr "pw123456" ]} in
  let st := (signup Plain.jws_sign Plain.bcrypt_hash None b Sample.e0 init).2 in
  status (signup Plain.jws_sign Plain.bcrypt_hash None b Sample.e0 init).1 = 201 ∧
  db_error Sample.e600 = None ∧
  status (signup Plain.jws_sign Plain.bcrypt_hash None b Sample.e600 st).1 = 400 ∧
  (signup Plain.jws_sign Plain.bcrypt_hash None b Sample.e600 st).2 = st.
Proof.
  intros b st.
  assert (status (signup Plain.jws_sign Plain.bcrypt_hash None b Sample.e0 init).1 = 201)
    as H by (vm_compute; reflexivity).
  destruct (signup_twice Plain.jws_sign Plain.bcrypt_hash None b b Sample.e0 Sample.e600
              init H eq_refl eq_refl) as (H400 & Hst & _).
  split; [exact H|]. split; [reflexivity|]. split; [exact H400|exact Hst].
Defined.

Lemma signup_then_login_witness :
  let b : body_t := {[ "username" := JStr " alice "; "password" := JStr "pw123456" ]} in
  let b2 : body_t := {[ "username" := JStr "alice"; "password" := JStr "pw123456" ]} in
  (∀ pw s, Plain.bcrypt_compare pw (Plain.bcrypt_hash pw s) = true) ∧
  status (signup Plain.jws_sign Plain.bcrypt_hash None b Sample.e0 init).1 = 201 ∧
  b !! "username" = Some (JStr " alice ") ∧ b !! "password" = Some (JStr "pw123456") ∧
  b2 !! "username" = Some (JStr (JS.trim " alice ")) ∧
  b2 !! "password" = Some (JStr "pw123456") ∧
  db_error Sample.e600 = None ∧
  (login Plain.jws_sign Plain.bcrypt_compare None b2 Sample.e600
     (signup Plain.jws_sign Plain.bcrypt_hash None b Sample.e0 init).2).1
  = respond 200 (BToken (jwt_sign Plain.jws_sign (new_id Sample.e0) (JWT_SECRET None)
                           (now Sample.e600))).
Proof.
  intros b b2.
  assert (status (signup Plain.jws_sign Plain.bcrypt_hash None b Sample.e0 init).1 = 201)
    as H by (vm_compute; reflexivity).
  assert (b !! "username" = Some (JStr " alice ")) as Hu by reflexivity.
  assert (b !! "password" = Some (JStr "pw123456")) as Hp by reflexivity.
  assert (b2 !! "username" = Some (JStr (JS.trim " alice "))) as Hu2 by reflexivity.
  assert (b2 !! "password" = Some (JStr "pw123456")) as Hp2 by reflexivity.
  split; [exact plain_bcrypt_correct|]. split; [exact H|]. split; [exact Hu|].
  split; [exact Hp|]. split; [exact Hu2|]. split; [exact Hp2|]. split; [reflexivity|].
  exact (signup_then_login Plain.jws_sign Plain.bcrypt_hash Plain.bcrypt_compare None
           plain_bcrypt_correct b b2 Sample.e0 Sample.e600 init " alice " "pw123456"
           H Hu Hp Hu2 Hp2 eq_refl).
Defined.

Lemma reachable_users_witness :
  let b : body_t := {[ "username" := JStr " alice "; "password" := JStr "pw123456" ]} in
  let st := (app Plain.jws_sign Plain.jws_decode Plain.jws_verify
               Plain.bcrypt_hash Plain.bcrypt_compare None
               (POST_signup b) Sample.e0 init).2 in
  reachable Plain.jws_sign Plain.jws_decode Plain.jws_verify
    Plain.bcrypt_hash Plain.bcrypt_compare None st ∧
  (username <$> users st) = ["alice"] ∧
  NoDup (u_id <$> users st) ∧ NoDup (username <$> users st) ∧
  ∀ usr, usr ∈ users st →
    JS.trim (username usr) = username usr ∧
    (3 ≤ String.length (username usr) ≤ 30)%nat.
Proof.
  intros b st.
  assert (reachable Plain.jws_sign Plain.jws_decode Plain.jws_verify
            Plain.bcrypt_hash Plain.bcrypt_compare None st) as Hreach.
  { apply reachable_step, reachable_init. }
  split; [exact Hreach|]. split; [vm_compute; reflexivity|].
  exact (reachable_users Plain.jws_sign Plain.jws_decode Plain.jws_verify
           Plain.bcrypt_hash Plain.bcrypt_compare None st Hreach).
Defined.

Lemma create_then_get_witness :
  let b : body_t := {[ "title" := JStr " Buy milk " ]} in
  (createTask Sample.alice b Sample.e0 init).1 = respond 201 (BTask Sample.milk) ∧
  db_error Sample.e600 = None ∧
  getTask Sample.alice (_id Sample.milk) Sample.e600 (createTask Sample.alice b Sample.e0 init).2
  = (respond 200 (BMessageTask "Task retrieved successfully!" Sample.milk),
     (createTask Sample.alice b Sample.e0 init).2).
Proof.
  intros b.
  assert ((createTask Sample.alice b Sample.e0 init).1 = respond 201 (BTask Sample.milk))
    as H by (vm_compute; reflexivity).
  split; [exact H|]. split; [reflexivity|].
  exact (create_then_get Sample.alice b Sample.e0 init Sample.milk Sample.e600 H eq_refl).
Defined.

Lemma update_then_get_witness :
  let b : body_t := {[ "complete" := JStr "1" ]} in
  let done_milk :=
    {| _id := _id Sample.milk; title := "Buy milk"; complete := true;
       userId := Some Sample.alice; createdAt := now Sample.e0;
       updatedAt := now Sample.e600 |} in
  (updateTask Sample.alice (_id Sample.milk) b Sample.e600 Sample.st1).1
    = respond 200 (BTask done_milk) ∧
  db_error Sample.e600 = None ∧
  userId done_milk = Some Sample.alice ∧
  (getTask Sample.alice (_id Sample.milk) Sample.e600
     (updateTask Sample.alice (_id Sample.milk) b Sample.e600 Sample.st1).2).1
  = respond 200 (BMessageTask "Task retrieved successfully!" done_milk).
Proof.
  intros b done_milk.
  assert ((updateTask Sample.alice (_id Sample.milk) b Sample.e600 Sample.st1).1
          = respond 200 (BTask done_milk)) as H by (vm_compute; reflexivity).
  split; [exact H|]. split; [reflexivity|]. split; [reflexivity|].
  exact (proj1 (update_then_get Sample.alice (_id Sample.milk) b Sample.e600 Sample.st1
                  done_milk Sample.e600 H eq_refl) eq_refl).
Defined.

Lemma update_touch_witness :
  let b : body_t := {[ "note" := JStr "ignored" ]} in
  (∀ k, is_Some (b !! k) → is_operator k = false ∧ names_path k = false) ∧
  findOne (_id Sample.milk) Sample.alice (tasks Sample.st1) = Some Sample.milk ∧
  db_error Sample.e600 = None ∧
  (updateTask Sample.alice (_id Sample.milk) b Sample.e600 Sample.st1).1
  = respond 200 (BTask (touch (now Sample.e600) Sample.milk)).
Proof.
  intros b.
  assert (findOne (_id Sample.milk) Sample.alice (tasks Sample.st1) = Some Sample.milk)
    as Hf by (vm_compute; reflexivity).
  assert (∀ k, is_Some (b !! k) → is_operator k = false ∧ names_path k = false) as Hop.
  { intros k [v Hv]. apply lookup_singleton_Some in Hv as [<- _]. split; reflexivity. }
  split; [exact Hop|]. split; [exact Hf|]. split; [reflexivity|].
  exact (f_equal fst (update_touch Sample.alice (_id Sample.milk) b Sample.e600 Sample.st1
                        Sample.milk Hop Hf eq_refl)).
Defined.

Lemma update_validation_first_witness :
  let b : body_t := {[ "title" := JStr "ab" ]} in
  valid_title_update (b !! "title") && valid_complete (b !! "complete") = false ∧
  findOne "65f000000000000000000000" Sample.alice (tasks Sample.st1) = None ∧
  status (updateTask Sample.alice "65f000000000000000000000" b Sample.e600 Sample.st1).1 = 400 ∧
  (updateTask Sample.alice "65f000000000000000000000" b Sample.e600 Sample.st1).2 = Sample.st1.
Proof.
  intros b.
  assert (valid_title_update (b !! "title") && valid_complete (b !! "complete") = false)
    as Hbad by reflexivity.
  destruct (update_validation_first Sample.alice "65f000000000000000000000" b
              Sample.e600 Sample.st1) as [Hrej _].
  destruct (Hrej Hbad) as (H400 & Hst & _).
  split; [exact Hbad|]. split; [vm_compute; reflexivity|]. split; [exact H400|exact Hst].
Defined.

Lemma delete_twice_witness :
  ids_unique Sample.st1 ∧
  (deleteTask Sample.alice (_id Sample.milk) Sample.e0 Sample.st1).1
    = respond 200 (BMessage "Task deleted") ∧
  db_error Sample.e600 = None ∧
  deleteTask Sample.alice (_id Sample.milk) Sample.e600
    (deleteTask Sample.alice (_id Sample.milk) Sample.e0 Sample.st1).2
  = (not_found, (deleteTask Sample.alice (_id Sample.milk) Sample.e0 Sample.st1).2).
Proof.
  assert (ids_unique Sample.st1) as Hnd by apply NoDup_singleton.
  assert ((deleteTask Sample.alice (_id Sample.milk) Sample.e0 Sample.st1).1
          = respond 200 (BMessage "Task deleted")) as H by (vm_compute; reflexivity).
  split; [exact Hnd|]. split; [exact H|]. split; [reflexivity|].
  exact (proj1 (delete_twice Sample.alice (_id Sample.milk) Sample.e0 Sample.st1
                  Sample.e600 Hnd H eq_refl)).
Defined.

Lemma list_from_store_witness :
  (NodeCache.get (cacheKey Sample.alice) (now Sample.e0) (cache Sample.st1)).1 = None ∧
  db_error Sample.e0 = None ∧
  ∃ l, (listTasks Sample.alice Sample.e0 Sample.st1).1 = respond 200 (BTasks l) ∧
       l ≡ₚ List.filter (of_user Sample.alice) (tasks Sample.st1) ∧
       StronglySorted newer_first l ∧
       ∀ x, x ∈ l ↔ x ∈ tasks Sample.st1 ∧ userId x = Some Sample.alice.
Proof.
  split; [reflexivity|]. split; [reflexivity|].
  exact (list_from_store Sample.alice Sample.e0 Sample.st1 eq_refl eq_refl).
Defined.


Lemma cache_isolation_witness :
  let st := (listTasks Sample.alice Sample.e0 Sample.st1).2 in
  Sample.alice ≠ Sample.bob ∧
  cache (run_op Sample.bob (CreateTask {[ "title" := JStr "Walk dog" ]}) Sample.e600 st).2
    !! cacheKey Sample.alice
  = cache st !! cacheKey Sample.alice.
Proof.
  intros st.
  assert (Sample.alice ≠ Sample.bob) as Hne by discriminate.
  split; [exact Hne|].
  exact (cache_isolation Sample.alice Sample.bob _ Sample.e600 st Hne).
Defined.

Lemma failed_request_keeps_store_witness :
  let r := DELETE_tasks_id (Some "Bearer garbage") (_id Sample.milk) in
  succeeded (app Plain.jws_sign Plain.jws_decode Plain.jws_verify
               Plain.bcrypt_hash Plain.bcrypt_compare None r Sample.e0 Sample.st1).1 = false ∧
  tasks (app Plain.jws_sign Plain.jws_decode Plain.jws_verify
           Plain.bcrypt_hash Plain.bcrypt_compare None r Sample.e0 Sample.st1).2
  = tasks Sample.st1.
Proof.
  intros r.
  assert (succeeded (app Plain.jws_sign Plain.jws_decode Plain.jws_verify
                       Plain.bcrypt_hash Plain.bcrypt_compare None r Sample.e0
                       Sample.st1).1 = false) as H by (vm_compute; reflexivity).
  split; [exact H|].
  exact (proj2 (proj1 (failed_request_keeps_store Plain.jws_sign Plain.jws_decode
                         Plain.jws_verify Plain.bcrypt_hash Plain.bcrypt_compare None
                         r Sample.e0 Sample.st1) H)).
Defined.

Lemma create_ignores_other_fields_witness :
  let b : body_t := {[ "title" := JStr "Buy milk" ]} in
  let b' : body_t := {[ "title" := JStr "Buy milk"; "userId" := JStr Sample.bob;
                        "_id" := JStr "65f000000000000000000000" ]} in
  b !! "title" = b' !! "title" ∧ b !! "complete" = b' !! "complete" ∧
  createTask Sample.alice b Sample.e0 init = createTask Sample.alice b' Sample.e0 init.
Proof.
  intros b b'.
  assert (b !! "title" = b' !! "title") as Ht by reflexivity.
  assert (b !! "complete" = b' !! "complete") as Hc by reflexivity.
  split; [exact Ht|]. split; [exact Hc|].
  exact (create_ignores_other_fields Sample.alice b b' Sample.e0 init Ht Hc).
Defined.

Lemma validation_keeps_other_keys_witness :
  let b : body_t := {[ "title" := JStr " Buy oat milk "; "userId" := JStr Sample.bob ]} in
  ("userId" ∉ fields validateTaskUpdate) ∧
  (validationResult validateTaskUpdate b).2 !! "userId" = Some (JStr Sample.bob).
Proof.
  intros b.
  assert ("userId" ∉ fields validateTaskUpdate) as Hk.
  { intros H. apply elem_of_cons in H as [H|H]; [discriminate|].
    apply elem_of_cons in H as [H|H]; [discriminate|]. by apply elem_of_nil in H. }
  split; [exact Hk|].
  exact (validation_keeps_other_keys validateTaskUpdate b "userId" Hk).
Defined.

Lemma reachable_titles_witness :
  let token := jwt_sign Plain.jws_sign Sample.alice "change-me-in-env" 1700000000000 in
  let st := (app Plain.jws_sign Plain.jws_decode Plain.jws_verify
               Plain.bcrypt_hash Plain.bcrypt_compare None
               (POST_tasks (Some ("Bearer " +:+ token)) {[ "title" := JStr "  Buy milk " ]})
               Sample.e0 init).2 in
  reachable Plain.jws_sign Plain.jws_decode Plain.jws_verify
    Plain.bcrypt_hash Plain.bcrypt_compare None st ∧
  Sample.milk ∈ tasks st ∧
  JS.trim (title Sample.milk) = title Sample.milk ∧
  (3 ≤ String.length (title Sample.milk))%nat.
Proof.
  intros token st.
  assert (reachable Plain.jws_sign Plain.jws_decode Plain.jws_verify
            Plain.bcrypt_hash Plain.bcrypt_compare None st) as Hreach.
  { apply reachable_step, reachable_init. }
  assert (Sample.milk ∈ tasks st) as Hin.
  { assert (tasks st = [Sample.milk]) as -> by (vm_compute; reflexivity).
    apply list_elem_of_here. }
  split; [exact Hreach|]. split; [exact Hin|].
  exact (reachable_titles Plain.jws_sign Plain.jws_decode Plain.jws_verify
           Plain.bcrypt_hash Plain.bcrypt_compare None st Hreach Sample.milk Hin).
Defined.

Lemma reachable_store_cache_witness :
  let create := CreateTask {[ "title" := JStr "Buy milk" ]} in
  let σ := (arun [Begin Sample.alice create Sample.e0; Exec 0 None;
                  Resume 0 (now Sample.e0);
                  Begin Sample.alice ListTasks Sample.e0; Exec 0 None;
                  Resume 0 (now Sample.e0)] boot).1 in
  areach σ ∧
  (NodeCache.v <$> cache (current σ) !! cacheKey Sample.alice) = Some [Sample.milk] ∧
  NoDup (_id <$> tasks (current σ)) ∧
  ∀ owner ent x,
    cache (current σ) !! cacheKey owner = Some ent → x ∈ NodeCache.v ent →
    userId x = Some owner.
Proof.
  intros create σ.
  assert (areach σ) as Hreach by apply areach_arun, areach_boot.
  split; [exact Hreach|]. split; [vm_compute; reflexivity|].
  destruct (reachable_store_cache σ Hreach) as (Hnd & Hc & _).
  split; [exact Hnd|exact Hc].
Defined.
